(** * The 2D football game: client handlers and relay server

    Shallow embedding of [src/components/Game.tsx] (the minimal variant
    with the socket handlers, and the power-up variant with phases and a
    match clock) and of [server.js], and the properties the specification
    states about them.

    JavaScript numbers are IEEE-754 binary64 values: they are Rocq's
    primitive [float], whose operations are the same machine operations.
    The integer counters that the code only moves by one from small
    constants (the scores, the match clock) are in [Z]. *)

From Stdlib Require Import Bool List ZArith Lia String.
From Stdlib Require Import Floats.
Import ListNotations.

Local Open Scope float_scope.

(* Decimal literals are rounded to the nearest binary64 value, as the
   JavaScript parser does. *)
Set Warnings "-inexact-float".

(** ** The physics engine as the game uses it

    matter-js is an external library: its code is not in the repository.
    The game uses a handful of its functions, which are modelled here by
    what the library does. *)

Module Matter.

(** [Matter.Vector]: a plain object with two number fields. *)
Record Vector := { x : float; y : float }.

Module Vector.

(** [Vector.sub(a, b)]: component-wise difference. *)
Definition sub (a b : Vector) : Vector :=
  {| x := x a - x b; y := y a - y b |}.

(** [Vector.mult(v, scalar)]. *)
Definition mult (v : Vector) (scalar : float) : Vector :=
  {| x := x v * scalar; y := y v * scalar |}.

(** [Vector.dot(a, b)]. *)
Definition dot (a b : Vector) : float := x a * x b + y a * y b.

(** [Vector.magnitude(v)]: [Math.sqrt(v.x * v.x + v.y * v.y)]. *)
Definition magnitude (v : Vector) : float :=
  sqrt (x v * x v + y v * y v).

(** [Vector.normalise(v)]: the zero vector when the magnitude [=== 0],
    otherwise [v] divided by its magnitude. *)
Definition normalise (v : Vector) : Vector :=
  let m := magnitude v in
  if m =? 0 then {| x := 0; y := 0 |}
  else {| x := x v / m; y := y v / m |}.

End Vector.

(** A rigid body: the fields of [Matter.Body] the game reads or writes.
    [id] is the body's identity ([===] on bodies compares identities);
    [force] and [torque] are the accumulators of [Body.applyForce]. *)
Record Body := {
  id : nat;
  position : Vector;
  velocity : Vector;
  force : Vector;
  torque : float
}.

Module Body.

(** [Body.setPosition(body, position)].  The library (matter-js 0.20)
    does not store the argument: it computes
    [delta = Vector.sub(position, body.position)] and translates the
    body by it ([part.position.x += delta.x], likewise [y]), so that the
    stored position is [body.position + (position - body.position)], the
    argument up to rounding.  The velocity is left alone (the game never
    passes [updateVelocity]). *)
Definition setPosition (b : Body) (p : Vector) : Body :=
  let delta := Vector.sub p (position b) in
  {| id := id b;
     position := {| x := x (position b) + x delta;
                    y := y (position b) + y delta |};
     velocity := velocity b;
     force := force b; torque := torque b |}.

(** [Body.setVelocity(body, velocity)].  The library (matter-js 0.20)
    sets [body.positionPrev = body.position - velocity * timeScale] and
    reads the velocity back as
    [(body.position - body.positionPrev) / timeScale], where [timeScale]
    is [body.deltaTime / Body._baseDelta]: it is 1 at the engine's
    default step of 1000 / 60 ms, which the game never changes, and
    multiplying or dividing by 1 is exact.  The stored velocity is
    therefore [position - (position - velocity)], the argument up to
    rounding. *)
Definition setVelocity (b : Body) (v : Vector) : Body :=
  let positionPrev := Vector.sub (position b) v in
  {| id := id b; position := position b;
     velocity := Vector.sub (position b) positionPrev;
     force := force b; torque := torque b |}.

(** Modelled from the spec: [applyForce(handle, v)] of the Simulation
    Oracle (spec section 6), whose code belongs to matter-js and is
    missing from the sources.  As the
    library documents [Body.applyForce(body, position, force)]: the force
    is added to the force accumulator, and its moment about the body's
    centre to the torque accumulator; position and velocity change only
    when the engine next integrates. *)
Definition applyForce (b : Body) (at_ : Vector) (f : Vector) : Body :=
  let offset := Vector.sub at_ (position b) in
  {| id := id b; position := position b; velocity := velocity b;
     force := {| x := x (force b) + x f; y := y (force b) + y f |};
     torque := torque b + (x offset * y f - y offset * x f) |}.

End Body.

(** [a === b] on bodies. *)
Definition same_body (a b : Body) : bool := Nat.eqb (id a) (id b).

(** Neither component is NaN or an infinity. *)
Definition is_finite_vector (v : Vector) : bool :=
  is_finite (x v) && is_finite (y v).

End Matter.

Import Matter.

(** ** The replication channel: packets, effects, relay server *)

(** The object literals handed to [emit]:
    [{ position, velocity }] for ['move'] and
    [{ ballPosition, ballVelocity }] for ['kick']. *)
Module Wire.
Record MoveData := { position : Vector; velocity : Vector }.
Record KickData := { ballPosition : Vector; ballVelocity : Vector }.
End Wire.

Inductive Payload :=
| MovePayload (d : Wire.MoveData)
| KickPayload (d : Wire.KickData).

(** A socket.io packet: the event name and its argument. *)
Record Packet := { event : string; data : Payload }.

Inductive Sound := kickSound | goalSound | powerUpSound.

(** What a handler does to the outside, in the order it happens. *)
Inductive Effect :=
| Emit (p : Packet)            (* newSocket.emit(event, data) *)
| Play (s : Sound)             (* sound.play() *)
| GoalFlash.                   (* Composite.add(world, goalFlash) + timed removal *)

Definition emitted (es : list Effect) : list Packet :=
  flat_map (fun e => match e with Emit p => [p] | _ => [] end) es.

Definition is_move (p : Packet) : bool := String.eqb (event p) "move".

(** Finite numbers only, in a snapshot and in a body. *)
Definition finite_move (d : Wire.MoveData) : bool :=
  is_finite_vector (Wire.position d) && is_finite_vector (Wire.velocity d).

Definition finite_kick (d : Wire.KickData) : bool :=
  is_finite_vector (Wire.ballPosition d) && is_finite_vector (Wire.ballVelocity d).

Definition finite_body (b : Body) : bool :=
  is_finite_vector (position b) && is_finite_vector (velocity b).

(** *** server.js *)

Module Server.

Definition SocketId := nat.

(** The sockets currently connected to [io]. *)
Record Io := { sockets : list SocketId }.

(** [socket.broadcast.emit(ev, data)]: to every connected socket but the
    sender. *)
Definition broadcast_emit (io : Io) (socket : SocketId) (ev : string)
    (d : Payload) : list (SocketId * Packet) :=
  map (fun r => (r, {| event := ev; data := d |}))
      (filter (fun r => negb (Nat.eqb r socket)) (sockets io)).

(** The listeners the connection handler registers with [socket.on]
    (apart from ['disconnect'], which only logs): one, for ['move']. *)
Definition listeners (io : Io) (socket : SocketId)
  : list (string * (Payload -> list (SocketId * Packet))) :=
  [ ("move"%string, fun d => broadcast_emit io socket "move" d) ].

Fixpoint find_listener {A} (ev : string) (ls : list (string * A)) : option A :=
  match ls with
  | [] => None
  | (name, h) :: rest => if String.eqb name ev then Some h else find_listener ev rest
  end.

(** A packet arriving from [socket]: the listener of its event name runs,
    if there is one; the result lists what is delivered to whom. *)
Definition receive (io : Io) (socket : SocketId) (p : Packet)
  : list (SocketId * Packet) :=
  match find_listener (event p) (listeners io socket) with
  | Some h => h (data p)
  | None => []
  end.

End Server.

(** A small count as a JavaScript number. *)
Fixpoint number (n : nat) : float :=
  match n with
  | O => 0
  | S k => number k + 1
  end.

(** ** Game.tsx, minimal variant: one player, one AI player, a socket *)

Module Minimal.

(** [useState({ player1: 0, player2: 0 })]. *)
Record Score := { player1 : Z; player2 : Z }.

(** Everything the effect's closures share: the window size read once at
    mount, the bodies, and the score cell. *)
Record Game := {
  width : float;
  height : float;
  player : Body;
  aiPlayer : Body;
  ball : Body;
  leftGoal : Body;
  rightGoal : Body;
  score : Score
}.

Definition set_player (g : Game) (b : Body) : Game :=
  {| width := width g; height := height g; player := b;
     aiPlayer := aiPlayer g; ball := ball g; leftGoal := leftGoal g;
     rightGoal := rightGoal g; score := score g |}.

Definition set_aiPlayer (g : Game) (b : Body) : Game :=
  {| width := width g; height := height g; player := player g;
     aiPlayer := b; ball := ball g; leftGoal := leftGoal g;
     rightGoal := rightGoal g; score := score g |}.

Definition set_ball (g : Game) (b : Body) : Game :=
  {| width := width g; height := height g; player := player g;
     aiPlayer := aiPlayer g; ball := b; leftGoal := leftGoal g;
     rightGoal := rightGoal g; score := score g |}.

Definition set_score (g : Game) (s : Score) : Game :=
  {| width := width g; height := height g; player := player g;
     aiPlayer := aiPlayer g; ball := ball g; leftGoal := leftGoal g;
     rightGoal := rightGoal g; score := s |}.

Definition kick_packet (b : Body) : Packet :=
  {| event := "kick";
     data := KickPayload {| Wire.ballPosition := position b;
                            Wire.ballVelocity := velocity b |} |}.

Definition move_packet (b : Body) : Packet :=
  {| event := "move";
     data := MovePayload {| Wire.position := position b;
                            Wire.velocity := velocity b |} |}.

(** [kickBall(kicker, ball)]: the ball after the call and what was
    emitted. *)
Definition kickBall (kicker ball : Body) : Body * list Effect :=
  let kickForce := 0.02 in
  let distance := Vector.magnitude (Vector.sub (position ball) (position kicker)) in
  let kickRange := 50 in
  if distance <? kickRange then
    let direction := Vector.normalise (Vector.sub (position ball) (position kicker)) in
    let force := Vector.mult direction kickForce in
    let ball' := Body.applyForce ball (position ball) force in
    (ball', [Emit (kick_packet ball')])
  else (ball, []).

(** [handleKeyDown(event)], on [event.key]. *)
Definition handleKeyDown (key : string) (g : Game) : Game * list Effect :=
  let force := 0.001 in
  let p := player g in
  let '(g1, es) :=
    if String.eqb key "ArrowUp" then
      (set_player g (Body.applyForce p (position p) {| x := 0; y := - force |}), [])
    else if String.eqb key "ArrowDown" then
      (set_player g (Body.applyForce p (position p) {| x := 0; y := force |}), [])
    else if String.eqb key "ArrowLeft" then
      (set_player g (Body.applyForce p (position p) {| x := - force; y := 0 |}), [])
    else if String.eqb key "ArrowRight" then
      (set_player g (Body.applyForce p (position p) {| x := force; y := 0 |}), [])
    else if String.eqb key " " then
      let '(b, es) := kickBall p (ball g) in (set_ball g b, es)
    else (g, []) in
  (g1, es ++ [Emit (move_packet (player g1))]).

(** [newSocket.on('move', (data) => ...)]. *)
Definition on_move (d : Wire.MoveData) (g : Game) : Game :=
  set_player g
    (Body.setVelocity (Body.setPosition (player g) (Wire.position d))
                      (Wire.velocity d)).

(** [newSocket.on('kick', (data) => ...)]. *)
Definition on_kick (d : Wire.KickData) (g : Game) : Game :=
  set_ball g
    (Body.setVelocity (Body.setPosition (ball g) (Wire.ballPosition d))
                      (Wire.ballVelocity d)).

(** [moveAIPlayer], the ['beforeUpdate'] listener: the whole of a
    simulation tick's game code. *)
Definition moveAIPlayer (g : Game) : Game * list Effect :=
  let forceMagnitude := 0.0005 in
  let ai := aiPlayer g in
  let toBall := Vector.sub (position (ball g)) (position ai) in
  let toGoal := Vector.sub {| x := 0; y := height g / 2 |} (position ai) in
  let force :=
    if width g / 2 <? x (position (ball g))
    then Vector.mult (Vector.normalise toBall) forceMagnitude
    else Vector.mult (Vector.normalise toGoal) forceMagnitude in
  let ai' := Body.applyForce ai (position ai) force in
  let g1 := set_aiPlayer g ai' in
  let kickRange := 50 in
  if Vector.magnitude (Vector.sub (position (ball g1)) (position ai')) <? kickRange
  then let '(b, es) := kickBall ai' (ball g1) in (set_ball g1 b, es)
  else (g1, []).

Definition resetPositions (g : Game) : Game :=
  let w := width g in
  let h := height g in
  let zero := {| x := 0; y := 0 |} in
  let b := Body.setVelocity (Body.setPosition (ball g) {| x := w / 2; y := h / 2 |}) zero in
  let p := Body.setVelocity (Body.setPosition (player g) {| x := w / 4; y := h / 2 |}) zero in
  let a := Body.setVelocity (Body.setPosition (aiPlayer g) {| x := 3 * w / 4; y := h / 2 |}) zero in
  set_aiPlayer (set_player (set_ball g b) p) a.

(** An entry of [event.pairs]. *)
Record Pair := { bodyA : Body; bodyB : Body }.

(** The body of the ['collisionStart'] listener's [forEach]. *)
Definition on_pair (g : Game) (pair : Pair) : Game :=
  if same_body (bodyA pair) (ball g) || same_body (bodyB pair) (ball g) then
    let goal := if same_body (bodyA pair) (ball g) then bodyB pair else bodyA pair in
    if same_body goal (leftGoal g) then
      resetPositions
        (set_score g {| player1 := player1 (score g);
                        player2 := player2 (score g) + 1 |})
    else if same_body goal (rightGoal g) then
      resetPositions
        (set_score g {| player1 := player1 (score g) + 1;
                        player2 := player2 (score g) |})
    else g
  else g.

Definition collisionStart (pairs : list Pair) (g : Game) : Game :=
  fold_left on_pair pairs g.

End Minimal.

(** ** Game.tsx, power-up variant: two teams, phases, clock, power-ups *)

Module PowerUps.

Definition TEAM_SIZE : nat := 13.
Definition GAME_DURATION : Z := 120.
Definition WINNING_SCORE : Z := 5.
Definition POWERUP_DURATION : float := 10.

Inductive GamePhase := START | PLAYING | END.

Inductive PowerUpType := SPEED_BOOST | SUPER_KICK | MAGNET_BALL.

Record PowerUp := { type : PowerUpType; body : Body }.

Record Score := { player1 : Z; player2 : Z }.

Record Keys := {
  ArrowUp : bool;
  ArrowDown : bool;
  ArrowLeft : bool;
  ArrowRight : bool
}.

(** The variables the effect's closures share.  [TEAM_SIZE] is positive,
    so [team1[0]] always exists: [team1] is kept as [team1[0]] together
    with [team1.slice(1)]. *)
Record World := {
  width : float;
  height : float;
  team1 : Body * list Body;
  team2 : list Body;
  ball : Body;
  leftGoal : Body;
  rightGoal : Body;
  activePowerUps : list PowerUp;
  playerPowerUp : option PowerUpType;
  powerUpTimeLeft : float;
  keys : Keys
}.

Definition set_team1 (g : World) (t : Body * list Body) : World :=
  {| width := width g; height := height g; team1 := t; team2 := team2 g;
     ball := ball g; leftGoal := leftGoal g; rightGoal := rightGoal g;
     activePowerUps := activePowerUps g; playerPowerUp := playerPowerUp g;
     powerUpTimeLeft := powerUpTimeLeft g; keys := keys g |}.

Definition set_team2 (g : World) (t : list Body) : World :=
  {| width := width g; height := height g; team1 := team1 g; team2 := t;
     ball := ball g; leftGoal := leftGoal g; rightGoal := rightGoal g;
     activePowerUps := activePowerUps g; playerPowerUp := playerPowerUp g;
     powerUpTimeLeft := powerUpTimeLeft g; keys := keys g |}.

Definition set_ball (g : World) (b : Body) : World :=
  {| width := width g; height := height g; team1 := team1 g; team2 := team2 g;
     ball := b; leftGoal := leftGoal g; rightGoal := rightGoal g;
     activePowerUps := activePowerUps g; playerPowerUp := playerPowerUp g;
     powerUpTimeLeft := powerUpTimeLeft g; keys := keys g |}.

Definition set_powerUps (g : World) (l : list PowerUp)
    (p : option PowerUpType) (t : float) : World :=
  {| width := width g; height := height g; team1 := team1 g; team2 := team2 g;
     ball := ball g; leftGoal := leftGoal g; rightGoal := rightGoal g;
     activePowerUps := l; playerPowerUp := p;
     powerUpTimeLeft := t; keys := keys g |}.

Definition set_keys (g : World) (k : Keys) : World :=
  {| width := width g; height := height g; team1 := team1 g; team2 := team2 g;
     ball := ball g; leftGoal := leftGoal g; rightGoal := rightGoal g;
     activePowerUps := activePowerUps g; playerPowerUp := playerPowerUp g;
     powerUpTimeLeft := powerUpTimeLeft g; keys := k |}.

Definition is_powerUp (p : option PowerUpType) (t : PowerUpType) : bool :=
  match p, t with
  | Some SPEED_BOOST, SPEED_BOOST
  | Some SUPER_KICK, SUPER_KICK
  | Some MAGNET_BALL, MAGNET_BALL => true
  | _, _ => false
  end.

Definition kick_packet (b : Body) : Packet :=
  {| event := "kick";
     data := KickPayload {| Wire.ballPosition := position b;
                            Wire.ballVelocity := velocity b |} |}.

(** [movePlayer(player, direction)]: the player after the call. *)
Definition movePlayer (g : World) (player : Body) (direction : Vector) : Body :=
  let baseSpeed := 5 in
  let speed :=
    if same_body player (fst (team1 g)) && is_powerUp (playerPowerUp g) SPEED_BOOST
    then baseSpeed * 1.5 else baseSpeed in
  let velocity := Vector.mult (Vector.normalise direction) speed in
  Body.setVelocity player velocity.

(** [kickBall(kicker, ball)]: the ball after the call and the effects. *)
Definition kickBall (g : World) (kicker ball : Body) : Body * list Effect :=
  let baseKickForce := 0.03 in
  let kickForce :=
    if same_body kicker (fst (team1 g)) && is_powerUp (playerPowerUp g) SUPER_KICK
    then baseKickForce * 2 else baseKickForce in
  let distance := Vector.magnitude (Vector.sub (position ball) (position kicker)) in
  let kickRange := 50 in
  if distance <? kickRange then
    let direction := Vector.normalise (Vector.sub (position ball) (position kicker)) in
    let force := Vector.mult direction kickForce in
    let ball' := Body.applyForce ball (position ball) force in
    (ball', [Play kickSound; Emit (kick_packet ball')])
  else (ball, []).

(** [moveAI(team, opposingGoal)]: the team and the ball after the
    [forEach], and the effects. *)
Fixpoint moveAI (g : World) (team : list Body) (opposingGoal : Body)
    (ball : Body) : list Body * Body * list Effect :=
  match team with
  | [] => ([], ball, [])
  | player :: rest =>
      let toBall := Vector.sub (position ball) (position player) in
      let player' := movePlayer g player toBall in
      let kickRange := 50 in
      let '(ball', es) :=
        if Vector.magnitude toBall <? kickRange then
          let toGoal := Vector.sub (position opposingGoal) (position player') in
          if 0 <? Vector.dot toGoal toBall
          then kickBall g player' ball
          else (ball, [])
        else (ball, []) in
      let '(rest', ball'', es') := moveAI g rest opposingGoal ball' in
      (player' :: rest', ball'', es ++ es')
  end.

(** [keys[key] = value] for a [key in keys]; other keys are ignored. *)
Definition set_key (key : string) (value : bool) (k : Keys) : Keys :=
  if String.eqb key "ArrowUp" then
    {| ArrowUp := value; ArrowDown := ArrowDown k;
       ArrowLeft := ArrowLeft k; ArrowRight := ArrowRight k |}
  else if String.eqb key "ArrowDown" then
    {| ArrowUp := ArrowUp k; ArrowDown := value;
       ArrowLeft := ArrowLeft k; ArrowRight := ArrowRight k |}
  else if String.eqb key "ArrowLeft" then
    {| ArrowUp := ArrowUp k; ArrowDown := ArrowDown k;
       ArrowLeft := value; ArrowRight := ArrowRight k |}
  else if String.eqb key "ArrowRight" then
    {| ArrowUp := ArrowUp k; ArrowDown := ArrowDown k;
       ArrowLeft := ArrowLeft k; ArrowRight := value |}
  else k.

(** [handleKeyDown(event)] and [handleKeyUp(event)], on [event.key]:
    they record the key and send nothing. *)
Definition handleKeyDown (key : string) (g : World) : World * list Effect :=
  (set_keys g (set_key key true (keys g)), []).

Definition handleKeyUp (key : string) (g : World) : World * list Effect :=
  (set_keys g (set_key key false (keys g)), []).

(** [handleSpacebar(event)], on [event.code]. *)
Definition handleSpacebar (code : string) (g : World) : World * list Effect :=
  if String.eqb code "Space" then
    let '(b, es) := kickBall g (fst (team1 g)) (ball g) in (set_ball g b, es)
  else (g, []).

(** The ball clamp that ends the ['beforeUpdate'] listener. *)
Definition keepBallInField (g : World) (ball : Body) : Body :=
  let ballRadius := 15 in
  let minX := ballRadius in
  let maxX := width g - ballRadius in
  let minY := ballRadius in
  let maxY := height g - ballRadius in
  let ball1 :=
    if x (position ball) <? minX then
      let b := Body.setPosition ball {| x := minX; y := y (position ball) |} in
      Body.setVelocity b {| x := - x (velocity b) * 0.5; y := y (velocity b) |}
    else if maxX <? x (position ball) then
      let b := Body.setPosition ball {| x := maxX; y := y (position ball) |} in
      Body.setVelocity b {| x := - x (velocity b) * 0.5; y := y (velocity b) |}
    else ball in
  if y (position ball1) <? minY then
    let b := Body.setPosition ball1 {| x := x (position ball1); y := minY |} in
    Body.setVelocity b {| x := x (velocity b); y := - y (velocity b) * 0.5 |}
  else if maxY <? y (position ball1) then
    let b := Body.setPosition ball1 {| x := x (position ball1); y := maxY |} in
    Body.setVelocity b {| x := x (velocity b); y := - y (velocity b) * 0.5 |}
  else ball1.

Section Tick.

(** [Matter.Collision.collides(a, b)] read as a truth value: the engine's
    collision detector, a black box for the game code. *)
Variable collides : Body -> Body -> bool.

(** The [activePowerUps.filter(...)] callback run over the list: what is
    kept, the power-up state after it, and the effects. *)
Fixpoint collectPowerUps (player : Body) (l : list PowerUp)
    (p : option PowerUpType) (t : float)
  : list PowerUp * option PowerUpType * float * list Effect :=
  match l with
  | [] => ([], p, t, [])
  | powerUp :: rest =>
      if collides player (body powerUp) then
        let '(kept, p', t', es) :=
          collectPowerUps player rest (Some (type powerUp)) POWERUP_DURATION in
        (kept, p', t', Play powerUpSound :: es)
      else
        let '(kept, p', t', es) := collectPowerUps player rest p t in
        (powerUp :: kept, p', t', es)
  end.

(** The blocks of the ['beforeUpdate'] listener, in the order of the
    source, each under the comment that heads it there. *)

(* Player movement *)
Definition playerMovement (g : World) : World :=
  let k := keys g in
  let dy := 0 in
  let dy := if ArrowUp k then dy - 1 else dy in
  let dy := if ArrowDown k then dy + 1 else dy in
  let dx := 0 in
  let dx := if ArrowLeft k then dx - 1 else dx in
  let dx := if ArrowRight k then dx + 1 else dx in
  let playerDirection := {| x := dx; y := dy |} in
  let me := fst (team1 g) in
  let me :=
    if negb (dx =? 0) || negb (dy =? 0)
    then movePlayer g me playerDirection
    else Body.setVelocity me {| x := 0; y := 0 |} in
  set_team1 g (me, snd (team1 g)).

(* Apply magnet ball effect *)
Definition magnetBall (g : World) : World :=
  if is_powerUp (playerPowerUp g) MAGNET_BALL then
    let player := fst (team1 g) in
    let toBall := Vector.sub (position (ball g)) (position player) in
    let distance := Vector.magnitude toBall in
    if distance <? 200 then
      let force := Vector.mult (Vector.normalise toBall) (- 0.001 * (200 - distance)) in
      set_ball g (Body.applyForce (ball g) (position (ball g)) force)
    else g
  else g.

(* Check for power-up collisions *)
Definition powerUpCollisions (g : World) : World * list Effect :=
  let '(kept, p, t, es) :=
    collectPowerUps (fst (team1 g)) (activePowerUps g) (playerPowerUp g)
      (powerUpTimeLeft g) in
  (set_powerUps g kept p t, es).

(* Update power-up timer *)
Definition powerUpTimer (g : World) : World :=
  if 0 <? powerUpTimeLeft g then
    let t := powerUpTimeLeft g - 1 / 60 in
    if t <=? 0
    then set_powerUps g (activePowerUps g) None t
    else set_powerUps g (activePowerUps g) (playerPowerUp g) t
  else g.

(* AI movement *)
Definition aiMovement (g : World) : World * list Effect :=
  let '(t2, b, es1) := moveAI g (team2 g) (leftGoal g) (ball g) in
  let g := set_ball (set_team2 g t2) b in
  let '(mates, b, es2) := moveAI g (snd (team1 g)) (rightGoal g) (ball g) in
  (set_ball (set_team1 g (fst (team1 g), mates)) b, es1 ++ es2).

(** The ['beforeUpdate'] listener. *)
Definition beforeUpdate (g : World) : World * list Effect :=
  let g := playerMovement g in
  let g := magnetBall g in
  let '(g, es0) := powerUpCollisions g in
  let g := powerUpTimer g in
  let '(g, es1) := aiMovement g in
  (* Keep the ball within the field *)
  (set_ball g (keepBallInField g (ball g)), es0 ++ es1).

End Tick.

(** [team.forEach((player, i) => ...)] of [resetPositions], from index
    [i] on; [x0] is the team's column. *)
Fixpoint resetTeam (g : World) (x0 : float) (i : float) (team : list Body)
  : list Body :=
  match team with
  | [] => []
  | player :: rest =>
      let p := Body.setPosition player
                 {| x := x0; y := (i + 1) * height g / (number TEAM_SIZE + 1) |} in
      Body.setVelocity p {| x := 0; y := 0 |} :: resetTeam g x0 (i + 1) rest
  end.

Definition resetPositions (g : World) : World :=
  let b := Body.setPosition (ball g) {| x := width g / 2; y := height g / 2 |} in
  let b := Body.setVelocity b {| x := 0; y := 0 |} in
  let t1 := resetTeam g (width g / 4) 0 (fst (team1 g) :: snd (team1 g)) in
  let t2 := resetTeam g (3 * width g / 4) 0 (team2 g) in
  let g := set_ball g b in
  let g := set_team1 g (hd (fst (team1 g)) t1, tl t1) in
  set_team2 g t2.

(** An entry of [event.pairs]. *)
Record Pair := { bodyA : Body; bodyB : Body }.

(** The body of the ['collisionStart'] listener's [forEach]: the world,
    the score cell (through [setScore]'s updater) and the effects so
    far. *)
Definition on_pair (st : World * Score * list Effect) (pair : Pair)
  : World * Score * list Effect :=
  let '(g, score, es) := st in
  if same_body (bodyA pair) (ball g) || same_body (bodyB pair) (ball g) then
    let goal := if same_body (bodyA pair) (ball g) then bodyB pair else bodyA pair in
    if same_body goal (leftGoal g) || same_body goal (rightGoal g) then
      let score' :=
        if same_body goal (leftGoal g)
        then {| player1 := player1 score; player2 := player2 score + 1 |}
        else {| player1 := player1 score + 1; player2 := player2 score |} in
      (resetPositions g, score', es ++ [Play goalSound; GoalFlash])
    else st
  else st.

Definition collisionStart (pairs : list Pair) (g : World) (score : Score)
  : World * Score * list Effect :=
  fold_left on_pair pairs (g, score, []).

(** The ball and the given goal sensor, in either order. *)
Definition goal_pair (g : World) (goal : Body) (pair : Pair) : bool :=
  (same_body (bodyA pair) (ball g) && same_body (bodyB pair) goal)
  || (same_body (bodyB pair) (ball g) && same_body (bodyA pair) goal).

Definition distinct_ids (g : World) : bool :=
  negb (same_body (ball g) (leftGoal g))
  && negb (same_body (ball g) (rightGoal g))
  && negb (same_body (leftGoal g) (rightGoal g)).

(** A body as [Bodies.circle] / [Bodies.rectangle] returns it: at the
    given place, at rest, nothing accumulated. *)
Definition newBody (i : nat) (px py : float) : Body :=
  {| id := i; position := {| x := px; y := py |};
     velocity := {| x := 0; y := 0 |};
     force := {| x := 0; y := 0 |}; torque := 0 |}.

(** [Array.from({ length: n }, (_, i) => createPlayer(x0, (i + 1) * height / (TEAM_SIZE + 1), ...))],
    from index [i] on, with identities from [i0] on. *)
Fixpoint createTeam (x0 height : float) (i0 : nat) (i : float) (n : nat)
  : list Body :=
  match n with
  | O => []
  | S k =>
      newBody i0 x0 ((i + 1) * height / (number TEAM_SIZE + 1))
      :: createTeam x0 height (S i0) (i + 1) k
  end.

(** The bodies the effect body creates for a window of the given size
    (walls apart): the two goal sensors, the two teams, the ball; no
    power-up yet, no key down. *)
Definition createWorld (width height : float) : World :=
  let goalWidth := 20 in
  {| width := width; height := height;
     leftGoal := newBody 5 (goalWidth / 2) (height / 2);
     rightGoal := newBody 6 (width - goalWidth / 2) (height / 2);
     team1 := (newBody 7 (width / 4) ((0 + 1) * height / (number TEAM_SIZE + 1)),
               createTeam (width / 4) height 8 1 (TEAM_SIZE - 1));
     team2 := createTeam (3 * width / 4) height (7 + TEAM_SIZE) 0 TEAM_SIZE;
     ball := newBody (7 + 2 * TEAM_SIZE) (width / 2) (height / 2);
     activePowerUps := [];
     playerPowerUp := None;
     powerUpTimeLeft := 0;
     keys := {| ArrowUp := false; ArrowDown := false;
                ArrowLeft := false; ArrowRight := false |} |}.

(** *** The component's state and the match clock *)

(** The [useState] cells of [Game]. *)
Record State := {
  score : Score;
  timeLeft : Z;
  gamePhase : GamePhase
}.

Definition initialState : State :=
  {| score := {| player1 := 0; player2 := 0 |};
     timeLeft := GAME_DURATION;
     gamePhase := START |}.

Definition startGame (s : State) : State :=
  {| score := {| player1 := 0; player2 := 0 |};
     timeLeft := GAME_DURATION;
     gamePhase := PLAYING |}.

Definition endGame (s : State) : State :=
  {| score := score s; timeLeft := timeLeft s; gamePhase := END |}.

Definition setScore (s : State) (sc : Score) : State :=
  {| score := sc; timeLeft := timeLeft s; gamePhase := gamePhase s |}.

(** What an effect run keeps alive until its cleanup: the value the
    binding [score] had in the render that ran the effect (the interval
    callback reads this binding, and the effect's dependency list is
    [[gamePhase]]), and the world it created. *)
Record Mounted := {
  closure_score : Score;
  world : World
}.

(** The callback of [gameInterval], through [setTimeLeft]'s updater. *)
Definition gameInterval (m : Mounted) (s : State) : State :=
  let prev := timeLeft s in
  if (prev <=? 0)%Z
     || (WINNING_SCORE <=? Z.max (player1 (closure_score m)) (player2 (closure_score m)))%Z
  then endGame {| score := score s; timeLeft := 0; gamePhase := gamePhase s |}
  else {| score := score s; timeLeft := prev - 1; gamePhase := gamePhase s |}.

(** The component between two events: its state cells and the effect run
    that is live, if any. *)
Record App := {
  state : State;
  mounted : option Mounted
}.

Inductive Event :=
| ClickStart                          (* StartScreen / EndScreen button *)
| CollisionStart (pairs : list Pair)  (* engine event *)
| IntervalTick.                       (* one second of gameInterval *)

(** [useEffect(..., [gamePhase])] at the commit that follows a state
    change from [old] to [s]: when the phase did not change the live
    effect run stays; when it did, the old run is cleaned up and the
    effect body runs, returning at once unless the phase is [PLAYING].
    [fresh] is the world the effect body builds. *)
Definition useEffect (fresh : World) (old : App) (s : State) : App :=
  match gamePhase (state old), gamePhase s with
  | START, START | PLAYING, PLAYING | END, END =>
      {| state := s; mounted := mounted old |}
  | _, PLAYING =>
      {| state := s;
         mounted := Some {| closure_score := score s; world := fresh |} |}
  | _, _ => {| state := s; mounted := None |}
  end.

(** One event.  The two buttons ([onStart], [onRestart]) are rendered in
    the phases [START] and [END] only; the engine and the interval exist
    while an effect run is live. *)
Definition step (fresh : World) (a : App) (e : Event) : App :=
  match e, mounted a with
  | ClickStart, _ =>
      match gamePhase (state a) with
      | PLAYING => a
      | START | END => useEffect fresh a (startGame (state a))
      end
  | CollisionStart pairs, Some m =>
      let '(g, sc, _) := collisionStart pairs (world m) (score (state a)) in
      let a' := {| state := state a;
                   mounted := Some {| closure_score := closure_score m;
                                      world := g |} |} in
      useEffect fresh a' (setScore (state a) sc)
  | IntervalTick, Some m => useEffect fresh a (gameInterval m (state a))
  | _, None => a
  end.

Definition run (fresh : World) (a : App) (es : list Event) : App :=
  fold_left (step fresh) es a.

(** The component at its first render: phase [START], the effect body
    returned at once. *)
Definition initialApp : App :=
  {| state := initialState; mounted := None |}.

End PowerUps.

(** ** The reconciliation rule of the specification, for comparison *)

Module Spec.

(** Spec section 4.3, in its words: [error] is the remote position minus
    the local predicted one; within [maxSnapDistance] the local position
    is blended toward the remote one by the factor [alpha], beyond it the
    remote position is taken as it is. *)
Definition spec_reconcile (alpha maxSnapDistance : float)
    (localPredicted remote : Vector) : Vector :=
  let error := Vector.sub remote localPredicted in
  if Vector.magnitude error <=? maxSnapDistance
  then {| x := x localPredicted + alpha * x error;
          y := y localPredicted + alpha * y error |}
  else remote.

Definition default_alpha : float := 0.3.

End Spec.

(** ** Concrete inputs *)

Module Samples.

Definition origin : Vector := {| x := 0; y := 0 |}.

Definition at_rest (i : nat) (px py : float) : Body :=
  {| id := i; position := {| x := px; y := py |}; velocity := origin;
     force := origin; torque := 0 |}.

(** The minimal variant just after mount in an 800 x 600 window. *)
Definition game : Minimal.Game :=
  {| Minimal.width := 800; Minimal.height := 600;
     Minimal.player := at_rest 1 200 300;
     Minimal.aiPlayer := at_rest 2 600 300;
     Minimal.ball := at_rest 3 400 300;
     Minimal.leftGoal := at_rest 8 10 300;
     Minimal.rightGoal := at_rest 9 790 300;
     Minimal.score := {| Minimal.player1 := 0; Minimal.player2 := 0 |} |}.

Definition snapshot (px py vx vy : float) : Wire.MoveData :=
  {| Wire.position := {| x := px; y := py |};
     Wire.velocity := {| x := vx; y := vy |} |}.

(** The power-up variant just after mount in an 800 x 600 window. *)
Definition world : PowerUps.World := PowerUps.createWorld 800 600.

(** No power-up is ever touched. *)
Definition no_collision (a b : Body) : bool := false.

Definition ball_in_left_goal (g : PowerUps.World) : PowerUps.Pair :=
  {| PowerUps.bodyA := PowerUps.ball g; PowerUps.bodyB := PowerUps.leftGoal g |}.

Definition ball_in_right_goal (g : PowerUps.World) : PowerUps.Pair :=
  {| PowerUps.bodyA := PowerUps.rightGoal g; PowerUps.bodyB := PowerUps.ball g |}.

End Samples.

(** ** Vocabulary of the statements *)

Module Props.

(** The distance [kickBall] measures and the direction it kicks in. *)
Definition kick_distance (kicker ball : Body) : float :=
  Vector.magnitude (Vector.sub (position ball) (position kicker)).

Definition kick_direction (kicker ball : Body) : Vector :=
  Vector.normalise (Vector.sub (position ball) (position kicker)).

(** The ['move'] packets among the effects of a handler. *)
Definition moves (es : list Effect) : list Packet :=
  filter is_move (emitted es).

Definition same_motion (a b : Body) : Prop :=
  position a = position b /\ velocity a = velocity b.

(** What the blocks before the clamp keep: the window size and,
    [Body.applyForce] being all they do to the ball, its position and
    velocity. *)
Definition keeps_ball (g g' : PowerUps.World) : Prop :=
  PowerUps.width g' = PowerUps.width g /\
  PowerUps.height g' = PowerUps.height g /\
  same_motion (PowerUps.ball g') (PowerUps.ball g).

(** One coordinate of the clamp: the bound it has passed, if any, in
    the order the listener tests them. *)
Definition bound_passed (lo hi c : float) : option float :=
  if c <? lo then Some lo else if hi <? c then Some hi else None.

(** A finite coordinate between the bounds. *)
Definition within (lo hi c : float) : bool :=
  (lo <=? c) && (c <=? hi) && is_finite c.

(** Inside the rectangle [15, width - 15] x [15, height - 15]. *)
Definition in_field (g : PowerUps.World) (b : Body) : bool :=
  (15 <=? x (position b)) && (x (position b) <=? PowerUps.width g - 15)
  && (15 <=? y (position b)) && (y (position b) <=? PowerUps.height g - 15).



Definition zero_score : PowerUps.Score :=
  {| PowerUps.player1 := 0; PowerUps.player2 := 0 |}.

(** What holds of the component after any sequence of events: an effect
    run is live exactly in the phase [PLAYING], and the [score] binding
    it closed over is the 0 - 0 that [startGame] set. *)
Definition consistent (a : PowerUps.App) : Prop :=
  match PowerUps.mounted a with
  | Some m =>
      PowerUps.gamePhase (PowerUps.state a) = PowerUps.PLAYING /\
      PowerUps.closure_score m = zero_score
  | None => PowerUps.gamePhase (PowerUps.state a) <> PowerUps.PLAYING
  end.

End Props.

Import Props.

(** ** The clock line of the heads-up display (power-up variant) *)

Module Hud.

(** [Math.floor(timeLeft / 60)] and [timeLeft % 60] of the clock line;
    [%] is JavaScript's remainder, which takes the sign of the dividend. *)
Definition minutes (timeLeft : Z) : Z := (timeLeft / 60)%Z.
Definition seconds (timeLeft : Z) : Z := Z.rem timeLeft 60.

End Hud.

(** ** The replication path, end to end (minimal variant) *)

Module Channel.

(** What a client's socket does with an arriving packet: the listener
    registered for its event name runs on the packet's argument.  [None]
    stands for the listener throwing, before it has changed anything,
    because the argument lacks the fields it reads; a packet of an event
    without listener is ignored. *)
Definition client_receive (p : Packet) (g : Minimal.Game) : option Minimal.Game :=
  if String.eqb (event p) "move" then
    match data p with
    | MovePayload d => Some (Minimal.on_move d g)
    | KickPayload _ => None
    end
  else if String.eqb (event p) "kick" then
    match data p with
    | KickPayload d => Some (Minimal.on_kick d g)
    | MovePayload _ => None
    end
  else Some g.

(** The packets a client emitted, each handed to the relay in turn. *)
Definition relay (io : Server.Io) (socket : Server.SocketId)
    (ps : list Packet) : list (Server.SocketId * Packet) :=
  flat_map (Server.receive io socket) ps.

(** What reaches the socket [r], in order of delivery. *)
Definition inbox (r : Server.SocketId) (ds : list (Server.SocketId * Packet))
  : list Packet :=
  map snd (filter (fun d => Nat.eqb (fst d) r) ds).

(** The packets of an inbox handled one after the other. *)
Fixpoint deliver_all (ps : list Packet) (g : Minimal.Game) : option Minimal.Game :=
  match ps with
  | [] => Some g
  | p :: rest =>
      match client_receive p g with
      | Some g' => deliver_all rest g'
      | None => None
      end
  end.

End Channel.

(** ** The power-up variant as a whole: everything that runs while a match
    is on *)

Module Loop.

Import PowerUps.

(** [createPowerUp()], with the three draws of [Math.random()] it makes
    (for the type, for x, for y) and the identity of the body it creates
    made explicit.  [Math.floor(r * 3)] is 0, 1 or 2 for a draw in
    [0, 1). *)
Definition createPowerUp (i : nat) (r1 r2 r3 : float) (g : World) : PowerUp :=
  let type :=
    if r1 * 3 <? 1 then SPEED_BOOST
    else if r1 * 3 <? 2 then SUPER_KICK
    else MAGNET_BALL in
  let x := r2 * (width g - 100) + 50 in
  let y := r3 * (height g - 100) + 50 in
  {| type := type; body := newBody i x y |}.

(** [spawnPowerUp()]: [activePowerUps.push(powerUp)]. *)
Definition spawnPowerUp (i : nat) (r1 r2 r3 : float) (g : World) : World :=
  set_powerUps g (activePowerUps g ++ [createPowerUp i r1 r2 r3 g])
    (playerPowerUp g) (powerUpTimeLeft g).

(** Modelled from the spec: [step(dt)] of the Simulation Oracle (spec
    section 6), whose code belongs to matter-js and is missing from the
    sources.  It is a black box for the game code: every moving body gets
    some position and velocity, keeps its identity, and has its
    accumulators cleared. *)
Definition integrate (motion : Body -> Vector * Vector) (b : Body) : Body :=
  {| id := id b; position := fst (motion b); velocity := snd (motion b);
     force := {| x := 0; y := 0 |}; torque := 0 |}.

(** Modelled from the spec: the same [step(dt)], over the moving bodies
    of the world (the goals and the power-ups are static). *)
Definition engineUpdate (motion : Body -> Vector * Vector) (g : World) : World :=
  set_ball
    (set_team2
       (set_team1 g (integrate motion (fst (team1 g)),
                     map (integrate motion) (snd (team1 g))))
       (map (integrate motion) (team2 g)))
    (integrate motion (ball g)).

(** What can happen while the effect is live. *)
Inductive Input :=
| BeforeUpdate                                   (* engine event *)
| EngineUpdate (motion : Body -> Vector * Vector) (* the engine's own step *)
| CollisionStart (pairs : list Pair)             (* engine event *)
| KeyDown (key code : string)                    (* window 'keydown' *)
| KeyUp (key : string)                           (* window 'keyup' *)
| PowerUpInterval (i : nat) (r1 r2 r3 : float).  (* every 15 seconds *)

Section Dispatch.

Variable collides : Body -> Body -> bool.

(** One input handled by the listeners registered for it, in the order
    of their registration (['keydown'] has two: [handleKeyDown], then
    [handleSpacebar]). *)
Definition dispatch (st : World * Score) (i : Input)
  : World * Score * list Effect :=
  let '(g, sc) := st in
  match i with
  | BeforeUpdate =>
      let '(g', es) := beforeUpdate collides g in (g', sc, es)
  | EngineUpdate motion => (engineUpdate motion g, sc, [])
  | CollisionStart pairs => collisionStart pairs g sc
  | KeyDown key code =>
      let '(g1, es1) := handleKeyDown key g in
      let '(g2, es2) := handleSpacebar code g1 in
      (g2, sc, es1 ++ es2)
  | KeyUp key =>
      let '(g', es) := handleKeyUp key g in (g', sc, es)
  | PowerUpInterval i r1 r2 r3 => (spawnPowerUp i r1 r2 r3 g, sc, [])
  end.

Fixpoint play (st : World * Score) (inputs : list Input)
  : World * Score * list Effect :=
  match inputs with
  | [] => (fst st, snd st, [])
  | i :: rest =>
      let '(g, sc, es) := dispatch st i in
      let '(g', sc', es') := play (g, sc) rest in
      (g', sc', es ++ es')
  end.

End Dispatch.

End Loop.

(** ** Further concrete inputs *)

Module Cases.

Definition nil_nil : PowerUps.Score :=
  {| PowerUps.player1 := 0; PowerUps.player2 := 0 |}.

(** The 800 x 600 world with a speed boost just picked up and no
    power-up on the field. *)
Definition boosted : PowerUps.World :=
  PowerUps.set_powerUps Samples.world []
    (Some PowerUps.SPEED_BOOST) PowerUps.POWERUP_DURATION.

(** Every body touches every power-up. *)
Definition always_collides (a b : Body) : bool := true.

(** The pairs of one collision event: the ball in the left goal, the
    player against the ball, the ball in the right goal, the ball in the
    left goal again. *)
Definition busy_event : list PowerUps.Pair :=
  [Samples.ball_in_left_goal Samples.world;
   {| PowerUps.bodyA := fst (PowerUps.team1 Samples.world);
      PowerUps.bodyB := PowerUps.ball Samples.world |};
   Samples.ball_in_right_goal Samples.world;
   Samples.ball_in_left_goal Samples.world].

End Cases.

(** ** Vocabulary of the further statements *)

Module Terms.

Definition is_tick (e : PowerUps.Event) : bool :=
  match e with PowerUps.IntervalTick => true | _ => false end.

Definition is_click (e : PowerUps.Event) : bool :=
  match e with PowerUps.ClickStart => true | _ => false end.

(** The number of seconds (interval ticks) among the events. *)
Definition ticks_in (es : list PowerUps.Event) : Z :=
  Z.of_nat (List.length (filter is_tick es)).

Definition no_click (es : list PowerUps.Event) : bool :=
  forallb (fun e => negb (is_click e)) es.

(** The power-ups of a list that the player touches, and the others. *)
Definition touched (collides : Body -> Body -> bool) (player : Body)
    (l : list PowerUps.PowerUp) : list PowerUps.PowerUp :=
  filter (fun pu => collides player (PowerUps.body pu)) l.

Definition untouched (collides : Body -> Body -> bool) (player : Body)
    (l : list PowerUps.PowerUp) : list PowerUps.PowerUp :=
  filter (fun pu => negb (collides player (PowerUps.body pu))) l.

(** A power-up is held only with time left on it. *)
Definition power_up_live (g : PowerUps.World) : bool :=
  match PowerUps.playerPowerUp g with
  | None => true
  | Some _ => negb (PowerUps.powerUpTimeLeft g <=? 0)
  end.

Definition is_beforeUpdate (i : Loop.Input) : bool :=
  match i with Loop.BeforeUpdate => true | _ => false end.


Definition world_of (r : PowerUps.World * PowerUps.Score * list Effect)
  : PowerUps.World := fst (fst r).

Definition score_of (r : PowerUps.World * PowerUps.Score * list Effect)
  : PowerUps.Score := snd (fst r).



(** Which way a pair of opposite keys points: [Lt] for the first alone,
    [Gt] for the second alone, [Eq] when they cancel or neither is down. *)
Definition axis (first second : bool) : comparison :=
  match first, second with
  | true, false => Lt
  | false, true => Gt
  | _, _ => Eq
  end.

(** The sign of a number: [Lt] below 0, [Gt] above, [Eq] otherwise. *)
Definition sign_of (f : float) : comparison :=
  if f <? 0 then Lt else if 0 <? f then Gt else Eq.

(** The speed [movePlayer] gives the player's own body. *)
Definition player_speed (g : PowerUps.World) : float :=
  if PowerUps.is_powerUp (PowerUps.playerPowerUp g) PowerUps.SPEED_BOOST
  then 7.5 else 5.

Definition bound_key (key : string) : bool :=
  String.eqb key "ArrowUp" || String.eqb key "ArrowDown"
  || String.eqb key "ArrowLeft" || String.eqb key "ArrowRight".

(** The minimal variant: a pair that joins the ball and the given goal,
    and the three bodies being distinct. *)
Definition m_goal_pair (g : Minimal.Game) (goal : Body) (pair : Minimal.Pair)
  : bool :=
  (same_body (Minimal.bodyA pair) (Minimal.ball g)
   && same_body (Minimal.bodyB pair) goal)
  || (same_body (Minimal.bodyB pair) (Minimal.ball g)
      && same_body (Minimal.bodyA pair) goal).

Definition m_distinct_ids (g : Minimal.Game) : bool :=
  negb (same_body (Minimal.ball g) (Minimal.leftGoal g))
  && negb (same_body (Minimal.ball g) (Minimal.rightGoal g))
  && negb (same_body (Minimal.leftGoal g) (Minimal.rightGoal g)).

(** Only the force accumulators of the three bodies may differ. *)
Definition only_forces_differ (g g' : Minimal.Game) : Prop :=
  same_motion (Minimal.player g') (Minimal.player g)
  /\ same_motion (Minimal.aiPlayer g') (Minimal.aiPlayer g)
  /\ same_motion (Minimal.ball g') (Minimal.ball g)
  /\ id (Minimal.player g') = id (Minimal.player g)
  /\ id (Minimal.aiPlayer g') = id (Minimal.aiPlayer g)
  /\ id (Minimal.ball g') = id (Minimal.ball g)
  /\ Minimal.leftGoal g' = Minimal.leftGoal g
  /\ Minimal.rightGoal g' = Minimal.rightGoal g
  /\ Minimal.score g' = Minimal.score g
  /\ Minimal.width g' = Minimal.width g
  /\ Minimal.height g' = Minimal.height g.

(** The effect is the given sound being played. *)
Definition is_sound (s : Sound) (e : Effect) : bool :=
  match e, s with
  | Play kickSound, kickSound => true
  | Play goalSound, goalSound => true
  | Play powerUpSound, powerUpSound => true
  | _, _ => false
  end.

(** How many times the sound is played among the effects. *)
Definition sounds (s : Sound) (es : list Effect) : nat :=
  List.length (filter (is_sound s) es).

Definition is_flash (e : Effect) : bool :=
  match e with GoalFlash => true | _ => false end.

Definition flashes (es : list Effect) : nat :=
  List.length (filter is_flash es).


Definition is_spawn (i : Loop.Input) : bool :=
  match i with Loop.PowerUpInterval _ _ _ _ => true | _ => false end.

(** The number of power-up spawns among the inputs. *)
Definition spawns_in (inputs : list Loop.Input) : nat :=
  List.length (filter is_spawn inputs).

(** The goals of both sides together. *)
Definition goals_scored (sc : PowerUps.Score) : Z :=
  (PowerUps.player1 sc + PowerUps.player2 sc)%Z.

(** What a run of effects contributes to the three counts: pickup
    sounds, goal sounds, goal flashes. *)
Definition tally (es : list Effect) : nat * nat * nat :=
  (sounds powerUpSound es, sounds goalSound es, flashes es).

(** Two worlds that differ in [keys] at most. *)
Definition only_keys_differ (g g' : PowerUps.World) : Prop :=
  PowerUps.width g' = PowerUps.width g
  /\ PowerUps.height g' = PowerUps.height g
  /\ PowerUps.team1 g' = PowerUps.team1 g
  /\ PowerUps.team2 g' = PowerUps.team2 g
  /\ PowerUps.ball g' = PowerUps.ball g
  /\ PowerUps.leftGoal g' = PowerUps.leftGoal g
  /\ PowerUps.rightGoal g' = PowerUps.rightGoal g
  /\ PowerUps.activePowerUps g' = PowerUps.activePowerUps g
  /\ PowerUps.playerPowerUp g' = PowerUps.playerPowerUp g
  /\ PowerUps.powerUpTimeLeft g' = PowerUps.powerUpTimeLeft g.

(** The clock shown is within the length of a match. *)
Definition clock_ok (a : PowerUps.App) : Prop :=
  (0 <= PowerUps.timeLeft (PowerUps.state a) <= PowerUps.GAME_DURATION)%Z.

(** Two worlds with the same power-ups on the field, in the player's
    hands and on the power-up clock. *)
Definition same_powerUps (g g' : PowerUps.World) : Prop :=
  PowerUps.activePowerUps g' = PowerUps.activePowerUps g /\
  PowerUps.playerPowerUp g' = PowerUps.playerPowerUp g /\
  PowerUps.powerUpTimeLeft g' = PowerUps.powerUpTimeLeft g.

(** None of the bodies is the player's own body [team1[0]]. *)
Definition none_is (me : Body) (team : list Body) : bool :=
  forallb (fun p => negb (same_body p me)) team.

(** The velocity the AI loop asks for a body: straight at the ball, at
    the base speed. *)
Definition chase (ball p : Body) : Vector :=
  Vector.mult (Vector.normalise (Vector.sub (position ball) (position p))) 5.

(** Everything the theorems about a world ask of it: ball and goals
    distinct bodies, teams of [TEAM_SIZE], no AI player being the
    player's own body. *)
Definition well_formed (g : PowerUps.World) : Prop :=
  PowerUps.distinct_ids g = true
  /\ List.length (snd (PowerUps.team1 g)) = (PowerUps.TEAM_SIZE - 1)%nat
  /\ List.length (PowerUps.team2 g) = PowerUps.TEAM_SIZE
  /\ none_is (fst (PowerUps.team1 g)) (snd (PowerUps.team1 g)) = true
  /\ none_is (fst (PowerUps.team1 g)) (PowerUps.team2 g) = true.

(** The pairs of a collision event that join the ball and the given
    goal. *)
Definition goals_in (g : PowerUps.World) (goal : Body)
    (pairs : list PowerUps.Pair) : list PowerUps.Pair :=
  filter (PowerUps.goal_pair g goal) pairs.

(** The same bodies in the same places of the same teams, the same
    goals, the same window. *)
Definition same_cast (g g' : PowerUps.World) : Prop :=
  map id (fst (PowerUps.team1 g') :: snd (PowerUps.team1 g'))
  = map id (fst (PowerUps.team1 g) :: snd (PowerUps.team1 g))
  /\ map id (PowerUps.team2 g') = map id (PowerUps.team2 g)
  /\ id (PowerUps.ball g') = id (PowerUps.ball g)
  /\ PowerUps.leftGoal g' = PowerUps.leftGoal g
  /\ PowerUps.rightGoal g' = PowerUps.rightGoal g
  /\ PowerUps.width g' = PowerUps.width g
  /\ PowerUps.height g' = PowerUps.height g.

End Terms.

Import Terms.

(** * Properties *)

(** ** Order facts on binary64 values *)

Module FloatOrder.

Lemma SFcompare_antisym (a b : spec_float) :
  SFcompare a b = option_map CompOpp (SFcompare b a).
Proof.
  destruct a as [sa|sa| |sa ma ea], b as [sb|sb| |sb mb eb]; simpl;
    try reflexivity;
    try (destruct sa; reflexivity);
    try (destruct sb; reflexivity);
    try (destruct sa, sb; reflexivity).
  destruct sa, sb; simpl; try reflexivity;
    rewrite (Z.compare_antisym ea eb);
    destruct (ea ?= eb)%Z eqn:E; simpl; try reflexivity;
    rewrite !Pos.compare_cont_spec, (Pos.compare_antisym ma mb);
    destruct (ma ?= mb)%positive; reflexivity.
Qed.

Lemma SFcompare_nan_iff (a b : spec_float) :
  SFcompare a b = None <-> a = S754_nan \/ b = S754_nan.
Proof.
  split.
  - destruct a as [sa|sa| |sa ma ea], b as [sb|sb| |sb mb eb]; simpl;
      intros H; try discriminate H; auto.
  - intros [-> | ->]; [reflexivity|].
    destruct a; reflexivity.
Qed.

Lemma is_nan_spec (a : float) : is_nan a = true <-> Prim2SF a = S754_nan.
Proof.
  unfold is_nan. rewrite eqb_spec. unfold SFeqb.
  destruct (SFcompare (Prim2SF a) (Prim2SF a)) as [c|] eqn:E.
  - split.
    + intros H. exfalso.
      assert (A := SFcompare_antisym (Prim2SF a) (Prim2SF a)).
      rewrite E in A. simpl in A.
      destruct c; simpl in *; try discriminate.
    + intros H. rewrite H in E. discriminate E.
  - split; [intros _|reflexivity].
    apply SFcompare_nan_iff in E. tauto.
Qed.

(** [a < b] and [b <= a] exclude each other. *)
Lemma leb_ltb_false (a b : float) : (a <=? b) = true -> (b <? a) = false.
Proof.
  rewrite leb_spec, ltb_spec. unfold SFleb, SFltb.
  rewrite (SFcompare_antisym (Prim2SF b) (Prim2SF a)).
  destruct (SFcompare (Prim2SF a) (Prim2SF b)) as [[]|]; simpl; congruence.
Qed.

Lemma ltb_leb_false (a b : float) : (a <? b) = true -> (b <=? a) = false.
Proof.
  rewrite leb_spec, ltb_spec. unfold SFleb, SFltb.
  rewrite (SFcompare_antisym (Prim2SF b) (Prim2SF a)).
  destruct (SFcompare (Prim2SF a) (Prim2SF b)) as [[]|]; simpl; congruence.
Qed.

(** On values that are numbers, "not less than" is "at least". *)
Lemma not_ltb_leb (a b : float) :
  is_nan a = false -> is_nan b = false -> (a <? b) = false -> (b <=? a) = true.
Proof.
  intros Ha Hb. rewrite leb_spec, ltb_spec. unfold SFleb, SFltb.
  rewrite (SFcompare_antisym (Prim2SF b) (Prim2SF a)).
  destruct (SFcompare (Prim2SF a) (Prim2SF b)) as [[]|] eqn:E; simpl;
    try congruence.
  apply SFcompare_nan_iff in E. rewrite <- !is_nan_spec in E.
  destruct E; congruence.
Qed.

Lemma leb_not_nan_l (a b : float) : (a <=? b) = true -> is_nan a = false.
Proof.
  rewrite leb_spec. unfold SFleb. intros H.
  destruct (is_nan a) eqn:E; [|reflexivity].
  apply is_nan_spec in E. rewrite E in H. simpl in H. discriminate H.
Qed.

Lemma leb_not_nan_r (a b : float) : (a <=? b) = true -> is_nan b = false.
Proof.
  rewrite leb_spec. unfold SFleb. intros H.
  destruct (is_nan b) eqn:E; [|reflexivity].
  apply is_nan_spec in E. rewrite E in H.
  destruct (Prim2SF a); simpl in H; discriminate H.
Qed.

Lemma leb_refl (a : float) : is_nan a = false -> (a <=? a) = true.
Proof.
  intros Ha. apply not_ltb_leb; try assumption.
  rewrite ltb_spec. unfold SFltb.
  assert (A := SFcompare_antisym (Prim2SF a) (Prim2SF a)).
  destruct (SFcompare (Prim2SF a) (Prim2SF a)) as [[]|]; simpl in *;
    congruence.
Qed.

End FloatOrder.

(** ** What is not finite stays so under the library's setters *)

Module FloatClass.

Lemma SFcompare_refl_finite (s : bool) (m : positive) (e : Z) :
  SFcompare (S754_finite s m e) (S754_finite s m e) = Some Eq.
Proof.
  simpl. destruct s; rewrite Z.compare_refl;
    rewrite Pos.compare_cont_spec, Pos.compare_refl; reflexivity.
Qed.

(** Not finite: NaN or an infinity. *)
Lemma not_finite_spec (a : float) :
  is_finite a = false <->
  Prim2SF a = S754_nan \/ exists s, Prim2SF a = S754_infinity s.
Proof.
  unfold is_finite, is_nan, is_infinity.
  rewrite !eqb_spec, abs_spec.
  change (Prim2SF infinity) with (S754_infinity false).
  destruct (Prim2SF a) as [s|s| |s m e] eqn:E.
  - simpl. destruct s; simpl; split; try discriminate.
    all: intros [H|[s' H]]; discriminate H.
  - split; [intros _; right; exists s; reflexivity|intros _].
    destruct s; reflexivity.
  - split; [intros _; left; reflexivity | reflexivity].
  - unfold SFeqb at 1. rewrite SFcompare_refl_finite.
    split; [|intros [H|[s' H]]; discriminate H].
    unfold SFabs, SFeqb. simpl. discriminate.
Qed.

Lemma nan_not_finite (a : float) : is_nan a = true -> is_finite a = false.
Proof. intros H. unfold is_finite. rewrite H. reflexivity. Qed.

(** Asked to go to a place that is not finite, a coordinate ends at one
    that is not. *)
Lemma translate_to_non_finite (a p : float) :
  is_finite p = false -> is_finite (a + (p - a)) = false.
Proof.
  rewrite !not_finite_spec, add_spec, sub_spec.
  generalize (Prim2SF a) (Prim2SF p). intros sa sp H.
  destruct H as [-> | [s ->]].
  - left. destruct sa; reflexivity.
  - destruct sa as [sa|sa| |sa ma ea]; destruct s; try destruct sa;
      simpl; eauto.
Qed.

(** From a place that is not finite, every translation ends at NaN. *)
Lemma translate_from_non_finite (a p : float) :
  is_finite a = false -> is_nan (a + (p - a)) = true.
Proof.
  rewrite not_finite_spec, FloatOrder.is_nan_spec, add_spec, sub_spec.
  generalize (Prim2SF a) (Prim2SF p). intros sa sp H.
  destruct H as [-> | [s ->]]; [reflexivity|].
  destruct sp as [sp|sp| |sp mp ep]; destruct s; try destruct sp; reflexivity.
Qed.

(** At a place that is not finite, every velocity is read back as NaN. *)
Lemma read_back_at_non_finite (a v : float) :
  is_finite a = false -> is_nan (a - (a - v)) = true.
Proof.
  rewrite not_finite_spec, FloatOrder.is_nan_spec, !sub_spec.
  generalize (Prim2SF a) (Prim2SF v). intros sa sv H.
  destruct H as [-> | [s ->]]; [reflexivity|].
  destruct sv as [sv|sv| |sv mv ev]; destruct s; try destruct sv; reflexivity.
Qed.

(** A velocity that is not finite is read back as one that is not. *)
Lemma read_back_of_non_finite (a v : float) :
  is_finite v = false -> is_finite (a - (a - v)) = false.
Proof.
  rewrite !not_finite_spec, !sub_spec.
  generalize (Prim2SF a) (Prim2SF v). intros sa sv H.
  destruct H as [-> | [s ->]].
  - left. destruct sa; reflexivity.
  - destruct sa as [sa|sa| |sa ma ea]; destruct s; try destruct sa;
      simpl; eauto.
Qed.

(** A finite coordinate above a positive bound, asked to go where it
    is, stays where it is. *)
Lemma translate_nowhere (lo a : float) :
  (0 <? lo) = true -> (lo <=? a) = true -> is_finite a = true ->
  a + (a - a) = a.
Proof.
  rewrite ltb_spec, leb_spec. intros L B F.
  destruct (Prim2SF a) as [s|s| |s m e] eqn:E.
  - exfalso. change (Prim2SF 0) with (S754_zero false) in L.
    destruct (Prim2SF lo) as [sl|sl| |sl ml el];
      try destruct sl; try destruct s; simpl in *; discriminate.
  - exfalso.
    assert (N : is_finite a = false)
      by (apply not_finite_spec; right; exists s; exact E).
    congruence.
  - exfalso. destruct (Prim2SF lo); simpl in B; discriminate B.
  - apply Prim2SF_inj. rewrite add_spec, sub_spec, E.
    unfold SF64sub, SFsub. cbv zeta. rewrite Z.sub_diag. reflexivity.
Qed.

(** NaN is below nothing and above nothing. *)
Lemma ltb_nan_l (a b : float) : is_nan a = true -> (a <? b) = false.
Proof.
  rewrite FloatOrder.is_nan_spec, ltb_spec. intros ->. reflexivity.
Qed.

Lemma ltb_nan_r (a b : float) : is_nan b = true -> (a <? b) = false.
Proof.
  rewrite FloatOrder.is_nan_spec, ltb_spec. intros ->.
  destruct (Prim2SF a); reflexivity.
Qed.

(** The same, for the two setters on a body. *)
Lemma setPosition_to_non_finite (b : Body) (p : Vector) :
  is_finite_vector p = false ->
  is_finite_vector (position (Body.setPosition b p)) = false.
Proof.
  unfold is_finite_vector. cbn [Body.setPosition Vector.sub position x y].
  intros H. apply andb_false_iff in H. apply andb_false_iff.
  destruct H as [H|H]; [left|right]; apply translate_to_non_finite, H.
Qed.

Lemma setPosition_from_non_finite (b : Body) (p : Vector) :
  is_finite_vector (position b) = false ->
  is_finite_vector (position (Body.setPosition b p)) = false.
Proof.
  unfold is_finite_vector. cbn [Body.setPosition Vector.sub position x y].
  intros H. apply andb_false_iff in H. apply andb_false_iff.
  destruct H as [H|H]; [left|right];
    apply nan_not_finite, translate_from_non_finite, H.
Qed.

Lemma setVelocity_of_non_finite (b : Body) (v : Vector) :
  is_finite_vector v = false ->
  is_finite_vector (velocity (Body.setVelocity b v)) = false.
Proof.
  unfold is_finite_vector. cbn [Body.setVelocity Vector.sub velocity x y].
  intros H. apply andb_false_iff in H. apply andb_false_iff.
  destruct H as [H|H]; [left|right]; apply read_back_of_non_finite, H.
Qed.

Lemma setVelocity_at_non_finite (b : Body) (v : Vector) :
  is_finite_vector (position b) = false ->
  is_finite_vector (velocity (Body.setVelocity b v)) = false.
Proof.
  unfold is_finite_vector. cbn [Body.setVelocity Vector.sub velocity x y].
  intros H. apply andb_false_iff in H. apply andb_false_iff.
  destruct H as [H|H]; [left|right];
    apply nan_not_finite, read_back_at_non_finite, H.
Qed.

End FloatClass.

(** ** Receiving snapshots (minimal variant) *)

Section Receive.

Import Minimal.

Lemma float_neq (a b : float) : (a =? b) = false -> is_nan a = false -> a <> b.
Proof.
  intros Hab Ha E. subst b. unfold is_nan in Ha.
  rewrite Hab in Ha. discriminate Ha.
Qed.

(** The player after the ['move'] listener: translated by the position
    error, its velocity read back at the new position. *)
Lemma on_move_player (d : Wire.MoveData) (g : Game) :
  let p := position (player g) in
  let p' := position (player (on_move d g)) in
  let v' := velocity (player (on_move d g)) in
  x p' = x p + (x (Wire.position d) - x p) /\
  y p' = y p + (y (Wire.position d) - y p) /\
  x v' = x p' - (x p' - x (Wire.velocity d)) /\
  y v' = y p' - (y p' - y (Wire.velocity d)).
Proof. repeat split. Qed.

(** The ball after the ['kick'] listener, likewise. *)
Lemma on_kick_ball (d : Wire.KickData) (g : Game) :
  let p := position (ball g) in
  let p' := position (ball (on_kick d g)) in
  let v' := velocity (ball (on_kick d g)) in
  x p' = x p + (x (Wire.ballPosition d) - x p) /\
  y p' = y p + (y (Wire.ballPosition d) - y p) /\
  x v' = x p' - (x p' - x (Wire.ballVelocity d)) /\
  y v' = y p' - (y p' - y (Wire.ballVelocity d)).
Proof. repeat split. Qed.

(** A snapshot that is not finite leaves a player that is not. *)
Lemma on_move_non_finite (d : Wire.MoveData) (g : Game) :
  finite_move d = false -> finite_body (player (on_move d g)) = false.
Proof.
  unfold finite_move, finite_body, on_move. intros H.
  apply andb_false_iff in H. apply andb_false_iff.
  destruct H as [H|H].
  - left. apply (FloatClass.setPosition_to_non_finite (player g)) in H.
    exact H.
  - right. apply FloatClass.setVelocity_of_non_finite, H.
Qed.

Lemma on_kick_non_finite (d : Wire.KickData) (g : Game) :
  finite_kick d = false -> finite_body (ball (on_kick d g)) = false.
Proof.
  unfold finite_kick, finite_body, on_kick. intros H.
  apply andb_false_iff in H. apply andb_false_iff.
  destruct H as [H|H].
  - left. apply (FloatClass.setPosition_to_non_finite (ball g)) in H.
    exact H.
  - right. apply FloatClass.setVelocity_of_non_finite, H.
Qed.

(** A player whose position is not finite is beyond repair: whatever
    snapshots follow, its position is not finite. *)
Lemma on_move_never_repairs (later : list Wire.MoveData) (g : Game) :
  is_finite_vector (position (player g)) = false ->
  is_finite_vector
    (position (player (fold_left (fun g d => on_move d g) later g))) = false.
Proof.
  revert g. induction later as [|d rest IH]; intros g H; [exact H|].
  cbn [fold_left]. apply IH.
  apply (FloatClass.setPosition_from_non_finite (player g) (Wire.position d)), H.
Qed.

(** The listener runs on every ['move'] packet, in the order of
    receipt. *)
Lemma deliver_all_moves (ds : list Wire.MoveData) (g : Game) :
  Channel.deliver_all
    (map (fun d => {| event := "move"; data := MovePayload d |}) ds) g
  = Some (fold_left (fun g d => on_move d g) ds g).
Proof.
  revert g. induction ds as [|d rest IH]; intros g; [reflexivity|].
  cbn [map Channel.deliver_all fold_left].
  unfold Channel.client_receive. cbn [event data String.eqb].
  change (String.eqb "move" "move") with true. cbv iota.
  apply IH.
Qed.

(** The body that ['move'] moves is the one the keyboard drives and
    whose state is sent out: the locally controlled player. *)
Lemma handleKeyDown_sends_player (key : string) (g : Game) :
  let '(g', es) := handleKeyDown key g in
  last (emitted es) (move_packet (player g)) = move_packet (player g').
Proof.
  unfold handleKeyDown.
  repeat match goal with
         | |- context [if ?c then _ else _] => destruct c
         end;
    try (unfold emitted; simpl; reflexivity).
  destruct (kickBall (player g) (ball g)) as [b es].
  unfold emitted. rewrite flat_map_app. simpl.
  apply last_last.
Qed.

(** C1 (as stated, refuted): a received ['move'] snapshot moves the local
    player: at the sample game the player stands at (200, 300) and after
    the snapshot (10, 20) it stands at (10, 20). *)
Lemma C1_local_player_mutated :
  position (player (on_move (Samples.snapshot 10 20 1 2) Samples.game))
    <> position (player Samples.game)
  /\ velocity (player (on_move (Samples.snapshot 10 20 1 2) Samples.game))
    <> velocity (player Samples.game).
Proof.
  split; intros E; apply (f_equal x) in E; simpl in E;
    revert E; apply float_neq; reflexivity.
Qed.

(** C1 (amended): an incoming ['move'] snapshot moves the locally
    controlled player.  The listener hands the received position and
    velocity to [Body.setPosition] and [Body.setVelocity] for that body:
    the library translates the player by the received position minus its
    own, and reads the velocity back at the new position as the position
    minus (the position minus the received velocity), which gives the
    received values up to rounding.  Everything else (force accumulators,
    AI player, ball, goals, score, window size) is left as it was.  The
    body moved is the one whose position and velocity the keyboard
    listener sends out with every key: there is no other player body and
    no test of who owns it. *)
Theorem C1_move_translates_local_player (d : Wire.MoveData) (g : Game) :
  let p := position (player g) in
  let p' := position (player (on_move d g)) in
  let v' := velocity (player (on_move d g)) in
  x p' = x p + (x (Wire.position d) - x p) /\
  y p' = y p + (y (Wire.position d) - y p) /\
  x v' = x p' - (x p' - x (Wire.velocity d)) /\
  y v' = y p' - (y p' - y (Wire.velocity d)) /\
  id (player (on_move d g)) = id (player g) /\
  force (player (on_move d g)) = force (player g) /\
  torque (player (on_move d g)) = torque (player g) /\
  aiPlayer (on_move d g) = aiPlayer g /\
  ball (on_move d g) = ball g /\
  leftGoal (on_move d g) = leftGoal g /\
  rightGoal (on_move d g) = rightGoal g /\
  score (on_move d g) = score g /\
  width (on_move d g) = width g /\
  height (on_move d g) = height g /\
  Channel.client_receive {| event := "move"; data := MovePayload d |} g
  = Some (on_move d g) /\
  (forall key : string,
     last (emitted (snd (handleKeyDown key g))) (move_packet (player g))
     = move_packet (player (fst (handleKeyDown key g)))).
Proof.
  cbv zeta. repeat (split; [reflexivity|]).
  intros key. assert (H := handleKeyDown_sends_player key g).
  destruct (handleKeyDown key g) as [g' es]. exact H.
Qed.

(** Whatever threshold of at least 10 units is configured, the snapshot
    that puts the player 10 units to the right is within it, and the
    handler does not produce the blended position. *)
Lemma no_blend_at_ten_units (maxSnapDistance : float) :
  (10 <=? maxSnapDistance) = true ->
  position (player (on_move (Samples.snapshot 210 300 0 0) Samples.game))
  <> Spec.spec_reconcile Spec.default_alpha maxSnapDistance
       (position (player Samples.game))
       (Wire.position (Samples.snapshot 210 300 0 0)).
Proof.
  intros H. unfold Spec.spec_reconcile.
  replace (Vector.magnitude
             (Vector.sub (Wire.position (Samples.snapshot 210 300 0 0))
                         (position (player Samples.game))))
    with 10 by (vm_compute; reflexivity).
  rewrite H. intros E. apply (f_equal x) in E.
  revert E. apply float_neq; vm_compute; reflexivity.
Qed.

(** C2 (as stated, refuted): with [maxSnapDistance = 100] and the default
    [alpha = 0.3], a snapshot 10 units away from the local position is
    within the threshold, the rule of the specification blends to
    x = 203, and the handler puts the player at x = 210. *)
Lemma C2_small_error_is_snapped :
  let d := Samples.snapshot 210 300 0 0 in
  let local := position (player Samples.game) in
  (Vector.magnitude (Vector.sub (Wire.position d) local) <=? 100) = true
  /\ Spec.spec_reconcile Spec.default_alpha 100 local (Wire.position d)
     = {| x := 203; y := 300 |}
  /\ position (player (on_move d Samples.game)) = {| x := 210; y := 300 |}
  /\ position (player (on_move d Samples.game))
     <> Spec.spec_reconcile Spec.default_alpha 100 local (Wire.position d).
Proof.
  repeat split; try (vm_compute; reflexivity).
  apply no_blend_at_ten_units. vm_compute; reflexivity.
Qed.

(** C2 (amended): on receipt of a ['move'] (of a ['kick']) message the
    handler applies the whole position error at once, whatever its size:
    the player's (the ball's) position becomes its own position plus the
    error, the error being the received position minus its own, as in
    the rule of the specification; no threshold is looked at and nothing
    is blended.  The velocity is read back at the new position as the
    position minus (the position minus the received velocity).  The
    result is the received position only up to rounding: there is a
    snapshot beyond the threshold of 100 units after which the position
    is not the one the specification's rule gives, the snapshot's. *)
Theorem C2_receiver_always_snaps
    (d : Wire.MoveData) (k : Wire.KickData) (g : Game) :
  let p := position (player g) in
  let error := Vector.sub (Wire.position d) p in
  let p' := position (player (on_move d g)) in
  let b := position (ball g) in
  let error_b := Vector.sub (Wire.ballPosition k) b in
  let b' := position (ball (on_kick k g)) in
  p' = {| x := x p + x error; y := y p + y error |} /\
  velocity (player (on_move d g))
  = {| x := x p' - (x p' - x (Wire.velocity d));
       y := y p' - (y p' - y (Wire.velocity d)) |} /\
  b' = {| x := x b + x error_b; y := y b + y error_b |} /\
  velocity (ball (on_kick k g))
  = {| x := x b' - (x b' - x (Wire.ballVelocity k));
       y := y b' - (y b' - y (Wire.ballVelocity k)) |} /\
  (exists far : Wire.MoveData,
     (Vector.magnitude
        (Vector.sub (Wire.position far) (position (player Samples.game)))
      <=? 100) = false
     /\ position (player (on_move far Samples.game))
        <> Spec.spec_reconcile Spec.default_alpha 100
             (position (player Samples.game)) (Wire.position far)).
Proof.
  cbv zeta. split; [reflexivity|]. split; [reflexivity|].
  split; [reflexivity|]. split; [reflexivity|].
  exists (Samples.snapshot 0.1 300 0 0). split; [vm_compute; reflexivity|].
  unfold Spec.spec_reconcile.
  replace (Vector.magnitude
             (Vector.sub (Wire.position (Samples.snapshot 0.1 300 0 0))
                         (position (player Samples.game))) <=? 100)
    with false by (vm_compute; reflexivity).
  intros E. apply (f_equal x) in E. revert E.
  apply float_neq; vm_compute; reflexivity.
Qed.

(** C2 at a concrete input, threshold 100: the player stands at
    x = 200 and the snapshot says x = 0.1, an error of 199.9; the player
    ends at 200 + (0.1 - 200), which is 0.09999999999999432. *)
Lemma C2_large_error_witness :
  position (player (on_move (Samples.snapshot 0.1 300 0 0) Samples.game))
  = {| x := 200 + (0.1 - 200); y := 300 |}
  /\ 200 + (0.1 - 200) = 0.099999999999994316.
Proof.
  split; [|vm_compute; reflexivity].
  rewrite (proj1 (C2_receiver_always_snaps
                    (Samples.snapshot 0.1 300 0 0)
                    {| Wire.ballPosition := Samples.origin;
                       Wire.ballVelocity := Samples.origin |}
                    Samples.game)).
  vm_compute; reflexivity.
Defined.

(** C3 (as stated, refuted).  First, two successive ['move'] emissions
    (two presses of a key that is not bound) are one and the same packet,
    so nothing in a snapshot orders it after the previous one.  Second,
    whatever number one reads off a snapshot as its sequence, the handler
    applies a snapshot that is not newer than the last one applied. *)
Lemma C3_stale_snapshot_is_applied :
  snd (handleKeyDown "a" (fst (handleKeyDown "a" Samples.game)))
    = snd (handleKeyDown "a" Samples.game)
  /\ ~ (exists sequence : Wire.MoveData -> nat,
          forall (g : Game) (lastApplied stale : Wire.MoveData),
            (sequence stale <= sequence lastApplied)%nat ->
            on_move stale (on_move lastApplied g) = on_move lastApplied g).
Proof.
  split; [reflexivity|].
  intros [sequence H].
  pose (d1 := Samples.snapshot 10 20 0 0).
  pose (d2 := Samples.snapshot 30 40 0 0).
  assert (D : forall a b, a = Samples.snapshot 10 20 0 0 ->
                          b = Samples.snapshot 30 40 0 0 ->
                          on_move a (on_move b Samples.game)
                          <> on_move b Samples.game
                          /\ on_move b (on_move a Samples.game)
                          <> on_move a Samples.game).
  { intros a b -> ->.
    split; intros E;
      apply (f_equal (fun g => x (position (player g)))) in E;
      simpl in E; revert E; apply float_neq; reflexivity. }
  destruct (D d1 d2 eq_refl eq_refl) as [D1 D2].
  destruct (Nat.le_ge_cases (sequence d1) (sequence d2)) as [L|L].
  - apply D1, H, L.
  - apply D2, H, L.
Qed.

(** C3 (amended): a snapshot carries its position and velocity and no
    sequence number, and the receiver keeps no counter: it runs the
    listener on every ['move'] it receives, in receipt order, each on
    the state the one before left, whichever was sent first.  As the
    library translates the player from where it stands, the outcome of a
    snapshot depends on the position before it: a snapshot delivered
    twice in a row need not leave the state of its first delivery, and
    two snapshots need not leave what the second alone leaves. *)
Theorem C3_every_snapshot_is_applied_in_order
    (ds : list Wire.MoveData) (g : Game) :
  Channel.deliver_all
    (map (fun d => {| event := "move"; data := MovePayload d |}) ds) g
  = Some (fold_left (fun g d => on_move d g) ds g)
  /\ (forall d1 d2,
        let p1 := position (player (on_move d1 g)) in
        position (player (on_move d2 (on_move d1 g)))
        = {| x := x p1 + (x (Wire.position d2) - x p1);
             y := y p1 + (y (Wire.position d2) - y p1) |})
  /\ (exists d, on_move d (on_move d Samples.game) <> on_move d Samples.game)
  /\ (exists d1 d2,
        on_move d2 (on_move d1 Samples.game) <> on_move d2 Samples.game).
Proof.
  split; [apply deliver_all_moves|]. split; [reflexivity|].
  split.
  - exists (Samples.snapshot 0.1 300 0 0). intros E.
    apply (f_equal (fun g => x (position (player g)))) in E.
    revert E. apply float_neq; vm_compute; reflexivity.
  - exists (Samples.snapshot 10 20 0 0), (Samples.snapshot 0.1 300 0 0).
    intros E.
    apply (f_equal (fun g => x (position (player g)))) in E.
    revert E. apply float_neq; vm_compute; reflexivity.
Qed.

(** C4 (as stated, refuted): the snapshot whose position is
    (NaN, Infinity) is not rejected; the player, which stood at
    (200, 300), has the position (NaN, Infinity) after it. *)
Lemma C4_non_finite_snapshot_changes_player :
  let d := Samples.snapshot nan infinity 0 0 in
  finite_move d = false
  /\ finite_body (player Samples.game) = true
  /\ position (player (on_move d Samples.game)) = {| x := nan; y := infinity |}
  /\ finite_body (player (on_move d Samples.game)) = false
  /\ position (player (on_move d Samples.game)) <> position (player Samples.game).
Proof.
  repeat split.
  intros E. apply (f_equal y) in E. simpl in E.
  revert E. apply float_neq; reflexivity.
Qed.

(** C4 (amended): there is no decoder and no validation: a received
    snapshot with a non-finite position or velocity component is applied
    like any other, and the player (for ['kick'], the ball) has a
    position or velocity that is not finite afterwards.  When it is the
    received position that is not finite, the velocity the library reads
    back is not finite either, whatever velocity was sent, and no later
    snapshot repairs the player: after any further snapshots its
    position is still not finite. *)
Theorem C4_non_finite_snapshot_is_applied
    (d : Wire.MoveData) (k : Wire.KickData) (g : Game) :
  (finite_move d = false -> finite_body (player (on_move d g)) = false) /\
  (finite_kick k = false -> finite_body (ball (on_kick k g)) = false) /\
  (is_finite_vector (Wire.position d) = false ->
   is_finite_vector (position (player (on_move d g))) = false
   /\ is_finite_vector (velocity (player (on_move d g))) = false
   /\ forall later : list Wire.MoveData,
        is_finite_vector
          (position
             (player (fold_left (fun g d => on_move d g) later (on_move d g))))
        = false).
Proof.
  split; [apply on_move_non_finite|]. split; [apply on_kick_non_finite|].
  intros H.
  assert (P : is_finite_vector (position (player (on_move d g))) = false).
  { apply (FloatClass.setPosition_to_non_finite (player g)) in H. exact H. }
  split; [exact P|]. split.
  - apply (FloatClass.setVelocity_at_non_finite
             (Body.setPosition (player g) (Wire.position d))).
    exact P.
  - intros later. apply on_move_never_repairs, P.
Qed.

Lemma C4_non_finite_witness :
  finite_body (player (on_move (Samples.snapshot nan infinity 0 0) Samples.game))
    = false
  /\ finite_body
       (ball (on_kick {| Wire.ballPosition := Samples.origin;
                         Wire.ballVelocity := {| x := neg_infinity; y := 0 |} |}
                      Samples.game))
    = false
  /\ is_finite_vector
       (position
          (player (on_move (Samples.snapshot 10 20 0 0)
                     (on_move (Samples.snapshot nan infinity 0 0)
                        Samples.game))))
    = false.
Proof.
  split; [|split].
  - apply (C4_non_finite_snapshot_is_applied
             (Samples.snapshot nan infinity 0 0)
             {| Wire.ballPosition := Samples.origin;
                Wire.ballVelocity := Samples.origin |}
             Samples.game).
    reflexivity.
  - apply (C4_non_finite_snapshot_is_applied
             (Samples.snapshot 0 0 0 0)
             {| Wire.ballPosition := Samples.origin;
                Wire.ballVelocity := {| x := neg_infinity; y := 0 |} |}
             Samples.game).
    reflexivity.
  - apply (proj2 (proj2 (proj2 (proj2
             (C4_non_finite_snapshot_is_applied
                (Samples.snapshot nan infinity 0 0)
                {| Wire.ballPosition := Samples.origin;
                   Wire.ballVelocity := Samples.origin |}
                Samples.game)) eq_refl))
             [Samples.snapshot 10 20 0 0]).
Defined.

End Receive.

(** ** The relay (server.js) *)

Section Relay.

Import Server.

Lemma receive_move (io : Io) (socket : SocketId) (d : Payload) :
  receive io socket {| event := "move"; data := d |}
  = broadcast_emit io socket "move" d.
Proof. reflexivity. Qed.

Lemma receive_kick (io : Io) (socket : SocketId) (d : Payload) :
  receive io socket {| event := "kick"; data := d |} = [].
Proof. reflexivity. Qed.

Lemma broadcast_emit_In (io : Io) (socket r : SocketId) (ev : string)
    (d : Payload) (p : Packet) :
  In (r, p) (broadcast_emit io socket ev d) <->
  In r (sockets io) /\ r <> socket /\ p = {| event := ev; data := d |}.
Proof.
  unfold broadcast_emit. rewrite in_map_iff. split.
  - intros [r' [E I]]. inversion E; subst. apply filter_In in I.
    destruct I as [I N]. repeat split; try assumption.
    apply negb_true_iff, Nat.eqb_neq in N. exact N.
  - intros [I [N ->]]. exists r. split; [reflexivity|].
    apply filter_In. split; [assumption|].
    apply negb_true_iff, Nat.eqb_neq. exact N.
Qed.

(** C6: what the relay does with the two kinds of message.  A ['move']
    packet is delivered, unchanged, to every connected socket other than
    its sender; for a ['kick'] packet no listener is registered and
    nothing is delivered to anyone.  With two peers 1 and 2 connected, a
    kick sent by peer 1 (as emitted by [kickBall]) never reaches peer 2. *)
Theorem C6_relay_forwards_move_but_not_kick :
  (forall io socket d r p,
      In (r, p) (receive io socket {| event := "move"; data := d |}) <->
      In r (sockets io) /\ r <> socket /\ p = {| event := "move"; data := d |})
  /\ (forall io socket d,
      receive io socket {| event := "kick"; data := d |} = [])
  /\ receive {| sockets := [1; 2]%nat |} 1%nat
       (Minimal.move_packet (Minimal.player Samples.game))
     = [(2%nat, Minimal.move_packet (Minimal.player Samples.game))]
  /\ receive {| sockets := [1; 2]%nat |} 1%nat
       (Minimal.kick_packet (Minimal.ball Samples.game))
     = [].
Proof.
  split; [|split; [|split]]; try reflexivity.
  intros. rewrite receive_move. apply broadcast_emit_In.
Qed.

End Relay.

(** ** Kicking *)

Section Kick.

Lemma minimal_kickBall_out_of_range (kicker ball : Body) :
  (kick_distance kicker ball <? 50) = false ->
  Minimal.kickBall kicker ball = (ball, []).
Proof.
  unfold Minimal.kickBall, kick_distance. intros H. rewrite H. reflexivity.
Qed.

Lemma powerups_kickBall_out_of_range (g : PowerUps.World) (kicker ball : Body) :
  (kick_distance kicker ball <? 50) = false ->
  PowerUps.kickBall g kicker ball = (ball, []).
Proof.
  unfold PowerUps.kickBall, kick_distance. intros H. rewrite H. reflexivity.
Qed.

(** The force [kickBall] uses in the power-up variant. *)
Lemma powerups_kickBall_in_range (g : PowerUps.World) (kicker ball : Body) :
  (kick_distance kicker ball <? 50) = true ->
  exists kickForce,
    (kickForce = 0.03 \/ kickForce = 0.03 * 2) /\
    PowerUps.kickBall g kicker ball
    = (Body.applyForce ball (position ball)
         (Vector.mult (kick_direction kicker ball) kickForce),
       [Play kickSound;
        Emit (PowerUps.kick_packet
                (Body.applyForce ball (position ball)
                   (Vector.mult (kick_direction kicker ball) kickForce)))]).
Proof.
  unfold PowerUps.kickBall, kick_distance, kick_direction. intros H.
  rewrite H.
  destruct (same_body kicker (fst (PowerUps.team1 g))
            && PowerUps.is_powerUp (PowerUps.playerPowerUp g) PowerUps.SUPER_KICK).
  - exists (0.03 * 2). split; [right|]; reflexivity.
  - exists 0.03. split; [left|]; reflexivity.
Qed.

(** C10: for a kicker and a ball at a distance of at least [kickRange]
    (50), [kickBall] does nothing in either variant: the ball is returned
    as it was (no force accumulated) and the list of effects is empty (no
    sound, no ['kick'] emitted).  When the distance is below 50 the ball
    receives the force [kickForce] along the normalised kicker-to-ball
    vector and one ['kick'] packet is emitted (after the kick sound in
    the power-up variant); and anything other than the no-op happens only
    when the distance is below 50. *)
Theorem C10_kickBall_only_within_range
    (g : PowerUps.World) (kicker ball : Body) :
  let distance := kick_distance kicker ball in
  let direction := kick_direction kicker ball in
  ((50 <=? distance) = true ->
     Minimal.kickBall kicker ball = (ball, []) /\
     PowerUps.kickBall g kicker ball = (ball, []))
  /\ ((distance <? 50) = true ->
     Minimal.kickBall kicker ball
     = (Body.applyForce ball (position ball) (Vector.mult direction 0.02),
        [Emit (Minimal.kick_packet
                 (Body.applyForce ball (position ball)
                    (Vector.mult direction 0.02)))])
     /\ exists kickForce,
         (kickForce = 0.03 \/ kickForce = 0.03 * 2) /\
         PowerUps.kickBall g kicker ball
         = (Body.applyForce ball (position ball) (Vector.mult direction kickForce),
            [Play kickSound;
             Emit (PowerUps.kick_packet
                     (Body.applyForce ball (position ball)
                        (Vector.mult direction kickForce)))]))
  /\ (Minimal.kickBall kicker ball <> (ball, []) -> (distance <? 50) = true)
  /\ (PowerUps.kickBall g kicker ball <> (ball, []) -> (distance <? 50) = true).
Proof.
  intros distance direction. subst distance direction.
  split; [|split; [|split]].
  - intros H. apply FloatOrder.leb_ltb_false in H. split.
    + apply minimal_kickBall_out_of_range, H.
    + apply powerups_kickBall_out_of_range, H.
  - intros H. split.
    + unfold Minimal.kickBall. fold (kick_distance kicker ball).
      rewrite H. reflexivity.
    + apply powerups_kickBall_in_range, H.
  - intros N. destruct (kick_distance kicker ball <? 50) eqn:E; [reflexivity|].
    exfalso. apply N, minimal_kickBall_out_of_range, E.
  - intros N. destruct (kick_distance kicker ball <? 50) eqn:E; [reflexivity|].
    exfalso. apply N, powerups_kickBall_out_of_range, E.
Qed.

(** C10 at concrete inputs: a kicker exactly 50 units from the ball does
    nothing; a kicker 20 units from it kicks. *)
Lemma C10_kickBall_witness :
  (Minimal.kickBall (Samples.at_rest 1 350 300) (Samples.at_rest 3 400 300)
   = (Samples.at_rest 3 400 300, [])
   /\ PowerUps.kickBall Samples.world (Samples.at_rest 1 350 300)
        (Samples.at_rest 3 400 300)
      = (Samples.at_rest 3 400 300, []))
  /\ (kick_distance (Samples.at_rest 1 380 300) (Samples.at_rest 3 400 300) <? 50)
     = true.
Proof.
  split.
  - apply (C10_kickBall_only_within_range Samples.world
             (Samples.at_rest 1 350 300) (Samples.at_rest 3 400 300)).
    vm_compute; reflexivity.
  - apply (C10_kickBall_only_within_range Samples.world
             (Samples.at_rest 1 380 300) (Samples.at_rest 3 400 300)).
    vm_compute. discriminate.
Defined.

End Kick.

(** ** The simulation tick of the power-up variant *)

Section BallInField.

Import PowerUps.

Variable collides : Body -> Body -> bool.

Lemma applyForce_same_motion (b : Body) (p f : Vector) :
  same_motion (Body.applyForce b p f) b.
Proof. split; reflexivity. Qed.

Lemma kickBall_same_motion (g : World) (kicker b : Body) :
  same_motion (fst (kickBall g kicker b)) b.
Proof.
  unfold kickBall.
  destruct (Vector.magnitude (Vector.sub (position b) (position kicker)) <? 50);
    simpl; split; reflexivity.
Qed.

Lemma moveAI_same_motion (g : World) (team : list Body) (goal b : Body) :
  same_motion (snd (fst (moveAI g team goal b))) b.
Proof.
  revert b. induction team as [|player rest IH]; intros b; simpl.
  - split; reflexivity.
  - match goal with
    | |- context [match ?e with pair _ _ => _ end] =>
        assert (K : same_motion (fst e) b);
        [ repeat match goal with
                 | |- context [if ?c then _ else _] => destruct c
                 end;
          try apply kickBall_same_motion; split; reflexivity
        | destruct e as [b1 es1] ]
    end.
    simpl in K. specialize (IH b1).
    destruct (moveAI g rest goal b1) as [[rest' b2] es2]. simpl in *.
    destruct IH as [IH1 IH2], K as [K1 K2]. split; congruence.
Qed.

Lemma keeps_ball_refl (g : World) : keeps_ball g g.
Proof. repeat split. Qed.

Lemma keeps_ball_trans (g1 g2 g3 : World) :
  keeps_ball g1 g2 -> keeps_ball g2 g3 -> keeps_ball g1 g3.
Proof.
  unfold keeps_ball, same_motion.
  intros [W1 [H1 [P1 V1]]] [W2 [H2 [P2 V2]]]. repeat split; congruence.
Qed.

Lemma playerMovement_keeps_ball (g : World) : keeps_ball g (playerMovement g).
Proof. repeat split. Qed.

Lemma magnetBall_keeps_ball (g : World) : keeps_ball g (magnetBall g).
Proof.
  unfold magnetBall.
  destruct (is_powerUp (playerPowerUp g) MAGNET_BALL); [|apply keeps_ball_refl].
  match goal with |- context [if ?c then _ else _] => destruct c end;
    repeat split.
Qed.

Lemma powerUpCollisions_keeps_ball (g : World) :
  keeps_ball g (fst (powerUpCollisions collides g)).
Proof.
  unfold powerUpCollisions.
  destruct (collectPowerUps collides (fst (team1 g)) (activePowerUps g)
              (playerPowerUp g) (powerUpTimeLeft g)) as [[[kept p] t] es].
  repeat split.
Qed.

Lemma powerUpTimer_keeps_ball (g : World) : keeps_ball g (powerUpTimer g).
Proof.
  unfold powerUpTimer.
  destruct (0 <? powerUpTimeLeft g); [|apply keeps_ball_refl].
  destruct (powerUpTimeLeft g - 1 / 60 <=? 0); repeat split.
Qed.

Lemma aiMovement_keeps_ball (g : World) : keeps_ball g (fst (aiMovement g)).
Proof.
  unfold aiMovement.
  assert (A := moveAI_same_motion g (team2 g) (leftGoal g) (ball g)).
  destruct (moveAI g (team2 g) (leftGoal g) (ball g)) as [[t2 b2] es1].
  simpl in A.
  set (g3 := set_ball (set_team2 g t2) b2).
  assert (B := moveAI_same_motion g3 (snd (team1 g3)) (rightGoal g3) (ball g3)).
  destruct (moveAI g3 (snd (team1 g3)) (rightGoal g3) (ball g3)) as [[mates b3] es2].
  simpl in B. unfold keeps_ball, same_motion in *. simpl.
  destruct A as [A1 A2], B as [B1 B2]. repeat split; congruence.
Qed.

(** The ball the listener leaves is the clamp of the ball it found. *)
Lemma beforeUpdate_ball (g : World) :
  exists g1 : World,
    keeps_ball g g1 /\
    ball (fst (beforeUpdate collides g)) = keepBallInField g1 (ball g1).
Proof.
  unfold beforeUpdate.
  assert (K1 := playerMovement_keeps_ball g).
  assert (K2 := magnetBall_keeps_ball (playerMovement g)).
  assert (K3 := powerUpCollisions_keeps_ball (magnetBall (playerMovement g))).
  destruct (powerUpCollisions collides (magnetBall (playerMovement g)))
    as [g3 es0].
  simpl in K3.
  assert (K4 := powerUpTimer_keeps_ball g3).
  assert (K5 := aiMovement_keeps_ball (powerUpTimer g3)).
  destruct (aiMovement (powerUpTimer g3)) as [g5 es1]. simpl in K5.
  exists g5. split; [|reflexivity].
  eauto using keeps_ball_trans.
Qed.

(** The clamp reads the window size and the ball's position and
    velocity, nothing else. *)
Lemma keepBallInField_motion (g g1 : World) (b b1 : Body) :
  width g1 = width g -> height g1 = height g -> same_motion b1 b ->
  same_motion (keepBallInField g1 b1) (keepBallInField g b).
Proof.
  intros W H [P V]. unfold keepBallInField, same_motion.
  rewrite W, H.
  destruct b as [i p v f t], b1 as [i1 p1 v1 f1 t1].
  cbn [position velocity] in P, V. subst p1 v1.
  cbn [Body.setPosition Body.setVelocity Vector.sub position velocity x y
       id force torque].
  destruct (x p <? 15); [|destruct (width g - 15 <? x p)];
    cbn [Body.setPosition Body.setVelocity Vector.sub position velocity x y
         id force torque];
    match goal with
    | |- context [if ?c then _ else _] => destruct c
    end;
    try match goal with
        | |- context [if ?c then _ else _] => destruct c
        end;
    split; reflexivity.
Qed.

(** No block of the listener but the clamp moves the ball. *)
Lemma tick_ball (g : World) :
  same_motion (ball (fst (beforeUpdate collides g)))
              (keepBallInField g (ball g)).
Proof.
  destruct (beforeUpdate_ball g) as [g1 [[W1 [H1 M1]] E]].
  rewrite E. apply keepBallInField_motion; assumption.
Qed.

Lemma keepBallInField_inside (g : World) (b : Body) :
  (x (position b) <? 15) = false ->
  (width g - 15 <? x (position b)) = false ->
  (y (position b) <? 15) = false ->
  (height g - 15 <? y (position b)) = false ->
  keepBallInField g b = b.
Proof.
  intros X1 X2 Y1 Y2. unfold keepBallInField.
  rewrite X1, X2, Y1, Y2. reflexivity.
Qed.

Lemma keepBallInField_in_field (g : World) (b : Body) :
  in_field g b = true -> keepBallInField g b = b.
Proof.
  unfold in_field. intros H.
  apply andb_true_iff in H. destruct H as [H Y2].
  apply andb_true_iff in H. destruct H as [H Y1].
  apply andb_true_iff in H. destruct H as [X1 X2].
  apply keepBallInField_inside; apply FloatOrder.leb_ltb_false; assumption.
Qed.

Lemma within_spec (lo hi c : float) :
  within lo hi c = true ->
  (c <? lo) = false /\ (hi <? c) = false
  /\ (lo <=? c) = true /\ is_finite c = true.
Proof.
  unfold within. intros H.
  apply andb_true_iff in H. destruct H as [H F].
  apply andb_true_iff in H. destruct H as [L U].
  split; [apply FloatOrder.leb_ltb_false, L|].
  split; [apply FloatOrder.leb_ltb_false, U|].
  split; assumption.
Qed.

(** The clamp when only the x coordinate is outside. *)
Lemma keepBallInField_x (g : World) (b : Body) (bound : float) :
  bound_passed 15 (width g - 15) (x (position b)) = Some bound ->
  within 15 (height g - 15) (y (position b)) = true ->
  let p' := {| x := x (position b) + (bound - x (position b));
               y := y (position b) |} in
  position (keepBallInField g b) = p'
  /\ velocity (keepBallInField g b)
     = {| x := x p' - (x p' - (- x (velocity b) * 0.5));
          y := y p' - (y p' - y (velocity b)) |}.
Proof.
  intros B Wy. cbv zeta.
  destruct (within_spec _ _ _ Wy) as [Y1 [Y2 [Ly Fy]]].
  assert (T : y (position b) + (y (position b) - y (position b))
              = y (position b))
    by (apply (FloatClass.translate_nowhere 15); [reflexivity | assumption..]).
  unfold bound_passed in B. unfold keepBallInField.
  destruct (x (position b) <? 15).
  - injection B as <-.
    cbn [Body.setPosition Body.setVelocity Vector.sub position velocity x y].
    rewrite T, Y1, Y2.
    cbn [Body.setPosition Body.setVelocity Vector.sub position velocity x y].
    rewrite ?T. split; reflexivity.
  - destruct (width g - 15 <? x (position b)); [|discriminate B].
    injection B as <-.
    cbn [Body.setPosition Body.setVelocity Vector.sub position velocity x y].
    rewrite T, Y1, Y2.
    cbn [Body.setPosition Body.setVelocity Vector.sub position velocity x y].
    rewrite ?T. split; reflexivity.
Qed.

(** The clamp when only the y coordinate is outside. *)
Lemma keepBallInField_y (g : World) (b : Body) (bound : float) :
  bound_passed 15 (height g - 15) (y (position b)) = Some bound ->
  within 15 (width g - 15) (x (position b)) = true ->
  let p' := {| x := x (position b);
               y := y (position b) + (bound - y (position b)) |} in
  position (keepBallInField g b) = p'
  /\ velocity (keepBallInField g b)
     = {| x := x p' - (x p' - x (velocity b));
          y := y p' - (y p' - (- y (velocity b) * 0.5)) |}.
Proof.
  intros B Wx. cbv zeta.
  destruct (within_spec _ _ _ Wx) as [X1 [X2 [Lx Fx]]].
  assert (T : x (position b) + (x (position b) - x (position b))
              = x (position b))
    by (apply (FloatClass.translate_nowhere 15); [reflexivity | assumption..]).
  unfold bound_passed in B. unfold keepBallInField.
  rewrite X1, X2.
  destruct (y (position b) <? 15).
  - injection B as <-.
    cbn [Body.setPosition Body.setVelocity Vector.sub position velocity x y].
    rewrite ?T. split; reflexivity.
  - destruct (height g - 15 <? y (position b)); [|discriminate B].
    injection B as <-.
    cbn [Body.setPosition Body.setVelocity Vector.sub position velocity x y].
    rewrite ?T. split; reflexivity.
Qed.

(** A coordinate that is not a number passes every test of the clamp
    and comes out as NaN. *)
Lemma keepBallInField_nan (g : World) (b : Body) :
  (is_nan (x (position b)) = true ->
   is_nan (x (position (keepBallInField g b))) = true)
  /\ (is_nan (y (position b)) = true ->
      is_nan (y (position (keepBallInField g b))) = true).
Proof.
  split; intros N; unfold keepBallInField.
  - rewrite (FloatClass.ltb_nan_l _ 15 N),
            (FloatClass.ltb_nan_r (width g - 15) _ N).
    destruct (y (position b) <? 15);
      [|destruct (height g - 15 <? y (position b))];
      cbn [Body.setPosition Body.setVelocity Vector.sub position x y];
      try exact N;
      apply FloatClass.translate_from_non_finite, FloatClass.nan_not_finite, N.
  - destruct (x (position b) <? 15);
      [|destruct (width g - 15 <? x (position b))];
      cbn [Body.setPosition Body.setVelocity Vector.sub position x y].
    + assert (N1 : is_nan (y (position b)
                           + (y (position b) - y (position b))) = true)
        by (apply FloatClass.translate_from_non_finite,
                  FloatClass.nan_not_finite, N).
      rewrite (FloatClass.ltb_nan_l _ 15 N1),
              (FloatClass.ltb_nan_r (height g - 15) _ N1).
      exact N1.
    + assert (N1 : is_nan (y (position b)
                           + (y (position b) - y (position b))) = true)
        by (apply FloatClass.translate_from_non_finite,
                  FloatClass.nan_not_finite, N).
      rewrite (FloatClass.ltb_nan_l _ 15 N1),
              (FloatClass.ltb_nan_r (height g - 15) _ N1).
      exact N1.
    + rewrite (FloatClass.ltb_nan_l _ 15 N),
              (FloatClass.ltb_nan_r (height g - 15) _ N).
      exact N.
Qed.

(** C9 (as stated, refuted).  In a window 20 wide the rectangle
    [15, width - 15] x [15, height - 15] is empty: the ball created at
    the centre (x = 10) is put at x = 15 by the first tick, beyond
    [width - 15 = 5].  And a coordinate that is not a number passes both
    tests of the clamp and stays as it is. *)
Lemma C9_ball_outside_field :
  (let g := createWorld 20 600 in
   let b' := ball (fst (beforeUpdate Samples.no_collision g)) in
   position b' = {| x := 15; y := 300 |}
   /\ width g - 15 = 5
   /\ in_field g b' = false)
  /\ (let g := set_ball Samples.world
                 {| id := 33; position := {| x := nan; y := 300 |};
                    velocity := {| x := 0; y := 0 |};
                    force := {| x := 0; y := 0 |}; torque := 0 |} in
      let b' := ball (fst (beforeUpdate Samples.no_collision g)) in
      is_nan (x (position b')) = true /\ in_field g b' = false).
Proof.
  split; repeat split; vm_compute; reflexivity.
Qed.

(** C9 (amended).  After the ['beforeUpdate'] listener of the power-up
    variant the ball has the position and velocity that the clamp
    computes from those it had before: no other block moves the ball.
    A ball found inside [15, width - 15] x [15, height - 15] keeps its
    position and velocity exactly.  When one coordinate is found below
    15 or above its upper bound (tested in this order) and the other is
    a finite number within its bounds, the listener asks the library to
    put that coordinate on the bound it passed, which translates it by
    the bound minus the coordinate, and to negate and halve that
    velocity component; the library reads both velocity components back
    at the new position.  So the coordinate lands on the bound only up
    to rounding, and the ball can be outside the rectangle after the
    tick, in a window of 800 x 600 and with finite coordinates too.  A
    coordinate that is not a number is never clamped. *)
Theorem C9_ball_kept_in_field (g : World) :
  let b := ball g in
  let b' := ball (fst (beforeUpdate collides g)) in
  let px := x (position b) in
  let py := y (position b) in
  same_motion b' (keepBallInField g b)
  /\ (in_field g b = true ->
      position b' = position b /\ velocity b' = velocity b)
  /\ (forall bound : float,
        bound_passed 15 (width g - 15) px = Some bound ->
        within 15 (height g - 15) py = true ->
        let p' := {| x := px + (bound - px); y := py |} in
        position b' = p'
        /\ velocity b'
           = {| x := x p' - (x p' - (- x (velocity b) * 0.5));
                y := y p' - (y p' - y (velocity b)) |})
  /\ (forall bound : float,
        bound_passed 15 (height g - 15) py = Some bound ->
        within 15 (width g - 15) px = true ->
        let p' := {| x := px; y := py + (bound - py) |} in
        position b' = p'
        /\ velocity b'
           = {| x := x p' - (x p' - x (velocity b));
                y := y p' - (y p' - (- y (velocity b) * 0.5)) |})
  /\ (is_nan px = true -> is_nan (x (position b')) = true)
  /\ (is_nan py = true -> is_nan (y (position b')) = true)
  /\ (exists g0 : World,
        width g0 = 800 /\ height g0 = 600
        /\ finite_body (ball g0) = true
        /\ in_field g0 (ball (fst (beforeUpdate collides g0))) = false).
Proof.
  cbv zeta. destruct (tick_ball g) as [P V].
  split; [split; assumption|]. rewrite P, V.
  split; [|split; [|split; [|split; [|split]]]].
  - intros I. rewrite (keepBallInField_in_field g (ball g) I).
    split; reflexivity.
  - intros bound B Wy. exact (keepBallInField_x g (ball g) bound B Wy).
  - intros bound B Wx. exact (keepBallInField_y g (ball g) bound B Wx).
  - apply keepBallInField_nan.
  - apply keepBallInField_nan.
  - exists (set_ball Samples.world
              {| id := 33; position := {| x := -2.4; y := 300 |};
                 velocity := {| x := 2; y := 0 |};
                 force := {| x := 0; y := 0 |}; torque := 0 |}).
    split; [reflexivity|]. split; [reflexivity|]. split; [reflexivity|].
    unfold in_field.
    destruct (tick_ball
                (set_ball Samples.world
                   {| id := 33; position := {| x := -2.4; y := 300 |};
                      velocity := {| x := 2; y := 0 |};
                      force := {| x := 0; y := 0 |}; torque := 0 |}))
      as [P0 _].
    rewrite P0. vm_compute. reflexivity.
Qed.

End BallInField.

(** C9 at concrete inputs, in the 800 x 600 world.  The ball at
    (5, 300), moving at (-4, 6), is put at (15, 300) with the velocity
    (2, 6).  The ball at (-2.4, 300) is put at x = 14.999999999999998,
    still below 15. *)
Lemma C9_ball_kept_in_field_witness :
  (let g := PowerUps.set_ball Samples.world
              {| id := 33; position := {| x := 5; y := 300 |};
                 velocity := {| x := -4; y := 6 |};
                 force := {| x := 0; y := 0 |}; torque := 0 |} in
   let b' := PowerUps.ball (fst (PowerUps.beforeUpdate Samples.no_collision g)) in
   position b' = {| x := 15; y := 300 |}
   /\ velocity b' = {| x := 2; y := 6 |})
  /\ (let g := PowerUps.set_ball Samples.world
                 {| id := 33; position := {| x := -2.4; y := 300 |};
                    velocity := {| x := 2; y := 0 |};
                    force := {| x := 0; y := 0 |}; torque := 0 |} in
      let b' := PowerUps.ball (fst (PowerUps.beforeUpdate Samples.no_collision g)) in
      x (position b') = 14.999999999999998
      /\ (x (position b') <? 15) = true).
Proof.
  split.
  - cbv zeta.
    assert (H := proj1 (proj2 (proj2
                   (C9_ball_kept_in_field Samples.no_collision
                      (PowerUps.set_ball Samples.world
                         {| id := 33; position := {| x := 5; y := 300 |};
                            velocity := {| x := -4; y := 6 |};
                            force := {| x := 0; y := 0 |}; torque := 0 |}))))
                 15 eq_refl eq_refl).
    cbv zeta in H. destruct H as [P V]. rewrite P, V.
    split; vm_compute; reflexivity.
  - cbv zeta.
    assert (H := proj1 (proj2 (proj2
                   (C9_ball_kept_in_field Samples.no_collision
                      (PowerUps.set_ball Samples.world
                         {| id := 33; position := {| x := -2.4; y := 300 |};
                            velocity := {| x := 2; y := 0 |};
                            force := {| x := 0; y := 0 |}; torque := 0 |}))))
                 15 eq_refl eq_refl).
    cbv zeta in H. destruct H as [P _]. rewrite P.
    split; vm_compute; reflexivity.
Defined.

(** ** Goals and the score *)

Section Goals.

Import PowerUps.












End Goals.

(** ** The match clock *)

Section Clock.

Import PowerUps.

Lemma useEffect_consistent (fresh : World) (a : App) (s : State) :
  consistent a ->
  (gamePhase s = PLAYING -> gamePhase (state a) <> PLAYING -> score s = zero_score) ->
  consistent (useEffect fresh a s).
Proof.
  unfold consistent, useEffect. intros C Z.
  destruct (mounted a) as [m|].
  - destruct C as [P Q]. rewrite P.
    destruct (gamePhase s) eqn:E; simpl; try congruence.
    split; [exact E | exact Q].
  - destruct (gamePhase (state a)) eqn:P, (gamePhase s) eqn:E; simpl;
      try congruence;
      (split; [exact E | apply Z; congruence]).
Qed.

Lemma step_consistent (fresh : World) (a : App) (e : Event) :
  consistent a -> consistent (step fresh a e).
Proof.
  intros C. unfold step.
  destruct e as [ | pairs | ].
  - assert (S : consistent
                  match gamePhase (state a) with
                  | PLAYING => a
                  | _ => useEffect fresh a (startGame (state a))
                  end).
    { destruct (gamePhase (state a)) eqn:P; try exact C;
        apply useEffect_consistent; try exact C; reflexivity. }
    destruct (mounted a); exact S.
  - destruct (mounted a) as [m|] eqn:M; [|exact C].
    unfold consistent in C. rewrite M in C. destruct C as [P Q].
    destruct (collisionStart pairs (world m) (score (state a))) as [[g sc] es].
    apply useEffect_consistent.
    + unfold consistent. simpl. split; assumption.
    + simpl. intros _ N. contradiction.
  - destruct (mounted a) as [m|] eqn:M; [|exact C].
    apply useEffect_consistent; [exact C|].
    unfold consistent in C. rewrite M in C. destruct C as [P Q].
    intros _ N. contradiction.
Qed.

Lemma run_consistent (fresh : World) (es : list Event) (a : App) :
  consistent a -> consistent (run fresh a es).
Proof.
  revert a. induction es as [|e es IH]; intros a C; simpl.
  - exact C.
  - apply IH, step_consistent, C.
Qed.

Lemma initialApp_consistent : consistent initialApp.
Proof. unfold consistent. simpl. discriminate. Qed.

(** With the 0 - 0 it closed over, the interval callback looks at the
    clock alone. *)
Lemma gameInterval_zero_closure (m : Mounted) (s : State) :
  closure_score m = zero_score ->
  gameInterval m s
  = if (timeLeft s <=? 0)%Z
    then {| score := score s; timeLeft := 0; gamePhase := END |}
    else {| score := score s; timeLeft := timeLeft s - 1;
            gamePhase := gamePhase s |}.
Proof.
  intros Z. unfold gameInterval. rewrite Z. simpl.
  rewrite orb_false_r. reflexivity.
Qed.

(** X1: the part of the transition to [END] that works.  After any
    sequence of events, when the phase is [PLAYING] and the clock is at
    0 the next interval tick ends the match; and once the phase is [END]
    the effect has been cleaned up, so neither engine events nor interval
    ticks change anything. *)
Lemma clock_expiry_ends_match (fresh : World) (events : list Event) :
  let a := run fresh initialApp events in
  (gamePhase (state a) = PLAYING -> (timeLeft (state a) <= 0)%Z ->
   gamePhase (state (step fresh a IntervalTick)) = END) /\
  (gamePhase (state a) = END ->
   forall pairs, step fresh a (CollisionStart pairs) = a
                 /\ step fresh a IntervalTick = a).
Proof.
  intros a.
  assert (C : consistent a) by apply run_consistent, initialApp_consistent.
  unfold consistent in C. split.
  - intros P T. unfold step.
    destruct (mounted a) as [m|]; [|contradiction].
    destruct C as [_ Z]. rewrite (gameInterval_zero_closure _ _ Z).
    apply Z.leb_le in T. rewrite T. unfold useEffect. rewrite P. reflexivity.
  - intros P pairs. unfold step.
    destruct (mounted a) as [m|]; [|split; reflexivity].
    destruct C as [Q _]. congruence.
Qed.

(** C7 (the code against the claim): while the clock has time left, an
    interval tick never ends the match, whatever the score is: the
    callback compares [WINNING_SCORE] with the [score] binding of the
    render that started the effect, which is 0 - 0 for the whole match.
    The tick only takes one second off the clock. *)
Theorem C7_win_score_does_not_end_match
    (fresh : World) (events : list Event) :
  let a := run fresh initialApp events in
  gamePhase (state a) = PLAYING ->
  (0 < timeLeft (state a))%Z ->
  let a' := step fresh a IntervalTick in
  gamePhase (state a') = PLAYING /\
  score (state a') = score (state a) /\
  timeLeft (state a') = (timeLeft (state a) - 1)%Z.
Proof.
  intros a P T a'. subst a'.
  assert (C : consistent a) by apply run_consistent, initialApp_consistent.
  unfold consistent in C. unfold step.
  destruct (mounted a) as [m|]; [|contradiction].
  destruct C as [_ Z]. rewrite (gameInterval_zero_closure _ _ Z).
  destruct (timeLeft (state a) <=? 0)%Z eqn:L.
  - apply Z.leb_le in L. lia.
  - unfold useEffect. simpl. rewrite P. simpl. repeat split; exact P.
Qed.

(** C7 at the failing input: the match is started, the ball enters the
    right goal five times (player 1 has 5, the winning score), and one
    second passes: the phase is still [PLAYING], with 119 seconds left. *)
Lemma C7_five_goals_witness :
  let events := ClickStart
                :: repeat (CollisionStart [Samples.ball_in_right_goal Samples.world]) 5 in
  let a := run Samples.world initialApp events in
  score (state a) = {| player1 := 5; player2 := 0 |}
  /\ (WINNING_SCORE <=? Z.max (player1 (score (state a)))
                              (player2 (score (state a))))%Z = true
  /\ gamePhase (state (step Samples.world a IntervalTick)) = PLAYING
  /\ timeLeft (state (step Samples.world a IntervalTick)) = 119%Z.
Proof.
  split; [vm_compute; reflexivity|].
  split; [vm_compute; reflexivity|].
  destruct (C7_win_score_does_not_end_match Samples.world
              (ClickStart
               :: repeat (CollisionStart [Samples.ball_in_right_goal Samples.world]) 5))
    as [P [_ T]]; try (vm_compute; reflexivity).
  split; [exact P|].
  rewrite T. vm_compute; reflexivity.
Defined.

End Clock.

(** ** When snapshots are sent *)

Section Sending.

Lemma moves_app (es es' : list Effect) : moves (es ++ es') = moves es ++ moves es'.
Proof.
  unfold moves, emitted. rewrite flat_map_app, filter_app. reflexivity.
Qed.

Lemma minimal_kickBall_moves (kicker b : Body) :
  moves (snd (Minimal.kickBall kicker b)) = [].
Proof.
  unfold Minimal.kickBall.
  destruct (Vector.magnitude (Vector.sub (position b) (position kicker)) <? 50);
    reflexivity.
Qed.

Lemma powerups_kickBall_moves (g : PowerUps.World) (kicker b : Body) :
  moves (snd (PowerUps.kickBall g kicker b)) = [].
Proof.
  unfold PowerUps.kickBall.
  destruct (Vector.magnitude (Vector.sub (position b) (position kicker)) <? 50);
    reflexivity.
Qed.

Lemma moveAI_moves (g : PowerUps.World) (team : list Body) (goal b : Body) :
  moves (snd (PowerUps.moveAI g team goal b)) = [].
Proof.
  revert b. induction team as [|player rest IH]; intros b; simpl.
  - reflexivity.
  - match goal with
    | |- context [match ?e with pair _ _ => _ end] =>
        assert (K : moves (snd e) = []);
        [ repeat match goal with
                 | |- context [if ?c then _ else _] => destruct c
                 end;
          try apply powerups_kickBall_moves; reflexivity
        | destruct e as [b1 es1] ]
    end.
    simpl in K. specialize (IH b1).
    destruct (PowerUps.moveAI g rest goal b1) as [[rest' b2] es2].
    simpl in *. rewrite moves_app, K, IH. reflexivity.
Qed.

Lemma collectPowerUps_moves (collides : Body -> Body -> bool) (player : Body)
    (l : list PowerUps.PowerUp) (p : option PowerUps.PowerUpType) (t : float) :
  moves (snd (PowerUps.collectPowerUps collides player l p t)) = [].
Proof.
  revert p t. induction l as [|powerUp rest IH]; intros p t; simpl.
  - reflexivity.
  - destruct (collides player (PowerUps.body powerUp)).
    + specialize (IH (Some (PowerUps.type powerUp)) PowerUps.POWERUP_DURATION).
      destruct (PowerUps.collectPowerUps collides player rest
                  (Some (PowerUps.type powerUp)) PowerUps.POWERUP_DURATION)
        as [[[kept p'] t'] es].
      simpl in *. exact IH.
    + specialize (IH p t).
      destruct (PowerUps.collectPowerUps collides player rest p t)
        as [[[kept p'] t'] es].
      simpl in *. exact IH.
Qed.

Lemma beforeUpdate_moves (collides : Body -> Body -> bool) (g : PowerUps.World) :
  moves (snd (PowerUps.beforeUpdate collides g)) = [].
Proof.
  unfold PowerUps.beforeUpdate, PowerUps.powerUpCollisions, PowerUps.aiMovement.
  set (g1 := PowerUps.magnetBall (PowerUps.playerMovement g)).
  assert (C := collectPowerUps_moves collides (fst (PowerUps.team1 g1))
                 (PowerUps.activePowerUps g1) (PowerUps.playerPowerUp g1)
                 (PowerUps.powerUpTimeLeft g1)).
  destruct (PowerUps.collectPowerUps collides (fst (PowerUps.team1 g1))
              (PowerUps.activePowerUps g1) (PowerUps.playerPowerUp g1)
              (PowerUps.powerUpTimeLeft g1)) as [[[kept p] t] es0].
  simpl in C.
  set (g2 := PowerUps.powerUpTimer (PowerUps.set_powerUps g1 kept p t)).
  assert (A := moveAI_moves g2 (PowerUps.team2 g2) (PowerUps.leftGoal g2)
                 (PowerUps.ball g2)).
  destruct (PowerUps.moveAI g2 (PowerUps.team2 g2) (PowerUps.leftGoal g2)
              (PowerUps.ball g2)) as [[t2 b2] es1].
  simpl in A.
  set (g3 := PowerUps.set_ball (PowerUps.set_team2 g2 t2) b2).
  assert (B := moveAI_moves g3 (snd (PowerUps.team1 g3)) (PowerUps.rightGoal g3)
                 (PowerUps.ball g3)).
  destruct (PowerUps.moveAI g3 (snd (PowerUps.team1 g3)) (PowerUps.rightGoal g3)
              (PowerUps.ball g3)) as [[mates b3] es2].
  simpl in B. simpl. rewrite !moves_app, C, A, B. reflexivity.
Qed.

Lemma handleSpacebar_moves (code : string) (g : PowerUps.World) :
  moves (snd (PowerUps.handleSpacebar code g)) = [].
Proof.
  unfold PowerUps.handleSpacebar.
  destruct (String.eqb code "Space"); [|reflexivity].
  assert (K := powerups_kickBall_moves g (fst (PowerUps.team1 g)) (PowerUps.ball g)).
  destruct (PowerUps.kickBall g (fst (PowerUps.team1 g)) (PowerUps.ball g))
    as [b es].
  exact K.
Qed.

Lemma moveAIPlayer_moves (g : Minimal.Game) :
  moves (snd (Minimal.moveAIPlayer g)) = [].
Proof.
  unfold Minimal.moveAIPlayer.
  match goal with
  | |- context [if ?c then _ else _] => destruct c; [|reflexivity]
  end.
  match goal with
  | |- context [match ?e with pair _ _ => _ end] =>
      assert (K : moves (snd e) = []) by apply minimal_kickBall_moves;
      destruct e as [b es]
  end.
  simpl in *. exact K.
Qed.

Lemma handleKeyDown_moves (key : string) (g : Minimal.Game) :
  moves (snd (Minimal.handleKeyDown key g))
  = [Minimal.move_packet (Minimal.player g)].
Proof.
  unfold Minimal.handleKeyDown.
  repeat match goal with
         | |- context [if String.eqb ?a ?b then _ else _] =>
             destruct (String.eqb a b)
         end;
    try reflexivity.
  assert (K := minimal_kickBall_moves (Minimal.player g) (Minimal.ball g)).
  destruct (Minimal.kickBall (Minimal.player g) (Minimal.ball g)) as [b es].
  simpl in *. rewrite moves_app, K. reflexivity.
Qed.

(** C8 (as stated, refuted): a simulation tick sends no snapshot.  With
    the player moving at (3, 0) and no key pressed, what the
    ['beforeUpdate'] listener of the minimal variant emits is nothing;
    the power-up variant's listener, run on its fresh world, emits no
    ['move'] either. *)
Lemma C8_tick_sends_no_snapshot :
  let g := Minimal.on_move (Samples.snapshot 200 300 3 0) Samples.game in
  velocity (Minimal.player g) = {| x := 3; y := 0 |}
  /\ snd (Minimal.moveAIPlayer g) = []
  /\ moves (snd (PowerUps.beforeUpdate Samples.no_collision Samples.world)) = [].
Proof. repeat split. Qed.

(** C8 (amended): in the minimal variant a snapshot of the local player
    is sent once for every [keydown] event, whatever the key, carrying
    the position and velocity the player had when the key was pressed;
    the simulation tick (the ['beforeUpdate'] listener) sends none, in
    the minimal variant and in the power-up variant, whose key handlers
    send none either. *)
Theorem C8_snapshot_sent_on_keydown_only :
  (forall key g,
      moves (snd (Minimal.handleKeyDown key g))
      = [Minimal.move_packet (Minimal.player g)])
  /\ (forall g, moves (snd (Minimal.moveAIPlayer g)) = [])
  /\ (forall collides g, moves (snd (PowerUps.beforeUpdate collides g)) = [])
  /\ (forall key g,
        snd (PowerUps.handleKeyDown key g) = []
        /\ snd (PowerUps.handleKeyUp key g) = []
        /\ moves (snd (PowerUps.handleSpacebar key g)) = []).
Proof.
  split; [|split; [|split]].
  - apply handleKeyDown_moves.
  - apply moveAIPlayer_moves.
  - apply beforeUpdate_moves.
  - intros key g. repeat split. apply handleSpacebar_moves.
Qed.

End Sending.

(** ** The length of a match *)

Section MatchLength.

Import PowerUps Terms.

Lemma step_collision_playing (fresh : World) (a : App) (pairs : list Pair) :
  consistent a ->
  gamePhase (state a) = PLAYING ->
  let a' := step fresh a (CollisionStart pairs) in
  gamePhase (state a') = PLAYING /\ timeLeft (state a') = timeLeft (state a).
Proof.
  intros C P. unfold consistent in C. unfold step.
  destruct (mounted a) as [m|]; [|contradiction].
  destruct (collisionStart pairs (world m) (score (state a))) as [[g sc] es].
  unfold useEffect. simpl. rewrite P. simpl. split; [exact P | reflexivity].
Qed.

Lemma step_ended (fresh : World) (a : App) (e : Event) :
  consistent a -> gamePhase (state a) = END -> is_click e = false ->
  step fresh a e = a.
Proof.
  intros C P N. unfold consistent in C. unfold step.
  destruct (mounted a) as [m|].
  - destruct C as [Q _]. congruence.
  - destruct e; try reflexivity. discriminate N.
Qed.

Lemma step_tick_playing (fresh : World) (a : App) :
  consistent a ->
  gamePhase (state a) = PLAYING ->
  let a' := step fresh a IntervalTick in
  if (timeLeft (state a) <=? 0)%Z
  then gamePhase (state a') = END /\ timeLeft (state a') = 0%Z
  else gamePhase (state a') = PLAYING
       /\ timeLeft (state a') = (timeLeft (state a) - 1)%Z.
Proof.
  intros C P. unfold consistent in C. unfold step.
  destruct (mounted a) as [m|]; [|contradiction].
  destruct C as [_ Z]. rewrite (gameInterval_zero_closure _ _ Z).
  destruct (timeLeft (state a) <=? 0)%Z; unfold useEffect; simpl; rewrite P;
    simpl; split; try reflexivity; exact P.
Qed.

(** From a running match with [t] seconds on the clock, events other
    than a button click leave the match running as long as at most [t]
    seconds have passed, and ended after that. *)
Lemma run_clock (fresh : World) (es : list Event) (a : App) :
  consistent a ->
  gamePhase (state a) = PLAYING ->
  (0 <= timeLeft (state a))%Z ->
  no_click es = true ->
  let a' := run fresh a es in
  if (ticks_in es <=? timeLeft (state a))%Z
  then gamePhase (state a') = PLAYING
       /\ timeLeft (state a') = (timeLeft (state a) - ticks_in es)%Z
  else gamePhase (state a') = END /\ timeLeft (state a') = 0%Z.
Proof.
  revert a. induction es as [|e es IH]; intros a C P T N.
  - simpl. unfold ticks_in. simpl.
    replace (0 <=? timeLeft (state a))%Z with true
      by (symmetry; apply Z.leb_le; exact T).
    split; [exact P | lia].
  - simpl in N. apply andb_true_iff in N. destruct N as [Ne N].
    apply negb_true_iff in Ne.
    cbn [run fold_left]. fold (run fresh (step fresh a e) es).
    assert (C' := step_consistent fresh a e C).
    destruct e as [ | pairs | ]; [discriminate Ne| |].
    + destruct (step_collision_playing fresh a pairs C P) as [P' T'].
      specialize (IH _ C' P'). rewrite T' in IH.
      specialize (IH T N).
      unfold ticks_in in *. simpl. exact IH.
    + assert (K := step_tick_playing fresh a C P).
      unfold ticks_in in *. cbn [filter is_tick List.length].
      rewrite Nat2Z.inj_succ.
      destruct (timeLeft (state a) <=? 0)%Z eqn:L.
      * destruct K as [P' T']. apply Z.leb_le in L.
        replace (Z.succ (Z.of_nat (List.length (filter is_tick es)))
                 <=? timeLeft (state a))%Z with false
          by (symmetry; apply Z.leb_gt; lia).
        assert (E : run fresh (step fresh a IntervalTick) es
                    = step fresh a IntervalTick).
        { clear IH. revert N.
          induction es as [|e' es' IH']; intros N; [reflexivity|].
          simpl in N. apply andb_true_iff in N. destruct N as [Ne' N'].
          apply negb_true_iff in Ne'.
          cbn [run fold_left]. rewrite (step_ended _ _ _ C' P' Ne').
          apply IH', N'. }
        rewrite E. split; assumption.
      * destruct K as [P' T']. apply Z.leb_gt in L.
        specialize (IH _ C' P'). rewrite T' in IH.
        assert (T0 : (0 <= timeLeft (state a) - 1)%Z) by lia.
        specialize (IH T0 N). cbv zeta in IH.
        destruct (Z.of_nat (List.length (filter is_tick es))
                  <=? timeLeft (state a) - 1)%Z eqn:B.
        -- apply Z.leb_le in B.
           replace (Z.succ (Z.of_nat (List.length (filter is_tick es)))
                    <=? timeLeft (state a))%Z with true
             by (symmetry; apply Z.leb_le; lia).
           destruct IH as [IH1 IH2]. split; [exact IH1 | lia].
        -- apply Z.leb_gt in B.
           replace (Z.succ (Z.of_nat (List.length (filter is_tick es)))
                    <=? timeLeft (state a))%Z with false
             by (symmetry; apply Z.leb_gt; lia).
           exact IH.
Qed.

(** X2: a match lasts [GAME_DURATION + 1] seconds, whatever is scored.
    After the start button, through any sequence of engine collision
    events and interval ticks, the match is still running while at most
    120 ticks have passed, with [120 - ticks] on the clock, and it is
    over, with the clock at 0, from the 121st tick on. *)
Theorem match_lasts_121_seconds (fresh : World) (es : list Event) :
  no_click es = true ->
  let a := run fresh initialApp (ClickStart :: es) in
  if (ticks_in es <=? GAME_DURATION)%Z
  then gamePhase (state a) = PLAYING
       /\ timeLeft (state a) = (GAME_DURATION - ticks_in es)%Z
  else gamePhase (state a) = END /\ timeLeft (state a) = 0%Z.
Proof.
  intros N a. subst a. cbn [run fold_left].
  fold (run fresh (step fresh initialApp ClickStart) es).
  assert (C : consistent (step fresh initialApp ClickStart))
    by apply step_consistent, initialApp_consistent.
  apply (run_clock fresh es _ C); try assumption; try reflexivity.
  simpl. unfold GAME_DURATION. lia.
Qed.

Lemma match_lasts_121_seconds_witness :
  gamePhase (state (run Samples.world initialApp
                      (ClickStart :: repeat IntervalTick 120))) = PLAYING
  /\ gamePhase (state (run Samples.world initialApp
                         (ClickStart :: repeat IntervalTick 121))) = END.
Proof.
  assert (H120 := match_lasts_121_seconds Samples.world
                    (repeat IntervalTick 120) eq_refl).
  assert (H121 := match_lasts_121_seconds Samples.world
                    (repeat IntervalTick 121) eq_refl).
  cbv zeta in H120, H121.
  change (ticks_in (repeat IntervalTick 120) <=? GAME_DURATION)%Z
    with true in H120.
  change (ticks_in (repeat IntervalTick 121) <=? GAME_DURATION)%Z
    with false in H121.
  exact (conj (proj1 H120) (proj1 H121)).
Defined.

End MatchLength.

(** ** The clock line *)

Section ClockLine.

Import PowerUps.

Lemma step_clock_ok (fresh : World) (a : App) (e : Event) :
  clock_ok a -> clock_ok (step fresh a e).
Proof.
  unfold clock_ok, GAME_DURATION. intros T. unfold step.
  destruct e as [ | pairs | ].
  - assert (S : (0 <= timeLeft
                         (state match gamePhase (state a) with
                                | PLAYING => a
                                | _ => useEffect fresh a (startGame (state a))
                                end) <= 120)%Z).
    { destruct (gamePhase (state a)) eqn:P; try exact T;
        unfold useEffect, startGame; rewrite P; simpl;
        unfold GAME_DURATION; lia. }
    destruct (mounted a); exact S.
  - destruct (mounted a) as [m|]; [|exact T].
    destruct (collisionStart pairs (world m) (score (state a))) as [[g sc] es].
    unfold useEffect. simpl. destruct (gamePhase (state a)); simpl; exact T.
  - destruct (mounted a) as [m|]; [|exact T].
    unfold useEffect, gameInterval, endGame.
    destruct (timeLeft (state a) <=? 0)%Z eqn:L; simpl.
    + destruct (gamePhase (state a)); simpl; lia.
    + apply Z.leb_gt in L.
      destruct (WINNING_SCORE <=? Z.max (player1 (closure_score m))
                                       (player2 (closure_score m)))%Z;
        simpl; destruct (gamePhase (state a)); simpl; lia.
Qed.

(** X3: whatever happens (button clicks, goals, seconds passing), the
    clock stays between 0 and [GAME_DURATION], so the clock line of the
    display is always a proper minutes : seconds reading of it: the
    minutes are 0, 1 or 2, the seconds are between 0 and 59 (never
    negative, which JavaScript's [%] would give for a negative clock),
    and 60 * minutes + seconds is the time left. *)
Theorem clock_line_is_valid (fresh : World) (es : list Event) :
  let t := timeLeft (state (run fresh initialApp es)) in
  (0 <= t <= GAME_DURATION)%Z
  /\ (0 <= Hud.minutes t <= 2)%Z
  /\ (0 <= Hud.seconds t < 60)%Z
  /\ (60 * Hud.minutes t + Hud.seconds t = t)%Z.
Proof.
  intros t.
  assert (T : clock_ok (run fresh initialApp es)).
  { assert (G : forall a, clock_ok a -> clock_ok (run fresh a es)).
    { induction es as [|e es IH]; intros a C; simpl; [exact C|].
      apply IH, step_clock_ok, C. }
    apply G. unfold clock_ok, GAME_DURATION. simpl. unfold GAME_DURATION. lia. }
  unfold clock_ok, GAME_DURATION in T. fold t in T.
  unfold Hud.minutes, Hud.seconds, GAME_DURATION.
  rewrite Z.rem_mod_nonneg by lia.
  assert (M := Z.mod_pos_bound t 60 ltac:(lia)).
  assert (D := Z.div_mod t 60 ltac:(lia)).
  assert (0 <= t / 60)%Z by (apply Z.div_pos; lia).
  assert (t / 60 <= 2)%Z by (apply Z.div_le_upper_bound; lia).
  repeat split; lia.
Qed.

End ClockLine.

(** ** Power-ups *)

Section PowerUpFacts.

Import PowerUps Terms.

Variable collides : Body -> Body -> bool.

Lemma same_powerUps_refl (g : World) : same_powerUps g g.
Proof. repeat split. Qed.

Lemma same_powerUps_trans (g1 g2 g3 : World) :
  same_powerUps g1 g2 -> same_powerUps g2 g3 -> same_powerUps g1 g3.
Proof.
  unfold same_powerUps. intros [A1 [B1 C1]] [A2 [B2 C2]].
  repeat split; congruence.
Qed.

(** The pickup pass over a list, in closed form. *)
Lemma collectPowerUps_closed_form (player : Body) (l : list PowerUp)
    (p : option PowerUpType) (t : float) :
  collectPowerUps collides player l p t
  = (untouched collides player l,
     match rev (touched collides player l) with
     | [] => p
     | last :: _ => Some (type last)
     end,
     match rev (touched collides player l) with
     | [] => t
     | _ :: _ => POWERUP_DURATION
     end,
     map (fun _ => Play powerUpSound) (touched collides player l)).
Proof.
  revert p t. induction l as [|pu rest IH]; intros p t.
  - reflexivity.
  - unfold touched, untouched in *. cbn [collectPowerUps filter].
    destruct (collides player (body pu)) eqn:E; cbn [negb].
    + rewrite IH. cbn [rev map].
      destruct (rev (filter (fun pu0 => collides player (body pu0)) rest));
        reflexivity.
    + rewrite IH. reflexivity.
Qed.


(** X4: the pickup block of a tick.  The power-ups the player does not
    touch stay active, in their order, and those it touches are removed,
    one pickup sound each; if it touches none the held power-up and its
    timer are as before; if it touches several, the one latest in the
    list is the one held afterwards, with the full [POWERUP_DURATION] on
    the timer. *)
Theorem pickup_keeps_last_touched (g : World) :
  let player := fst (team1 g) in
  let hit := touched collides player (activePowerUps g) in
  let g' := fst (powerUpCollisions collides g) in
  let es := snd (powerUpCollisions collides g) in
  activePowerUps g' = untouched collides player (activePowerUps g)
  /\ es = map (fun _ => Play powerUpSound) hit
  /\ (List.length (activePowerUps g') + List.length hit
      = List.length (activePowerUps g))%nat
  /\ (hit = [] ->
      playerPowerUp g' = playerPowerUp g
      /\ powerUpTimeLeft g' = powerUpTimeLeft g)
  /\ (forall before last, hit = before ++ [last] ->
      playerPowerUp g' = Some (type last)
      /\ powerUpTimeLeft g' = POWERUP_DURATION).
Proof.
  intros player hit g' es. subst player hit g' es.
  unfold powerUpCollisions. rewrite collectPowerUps_closed_form. simpl.
  split; [reflexivity|]. split; [reflexivity|]. split; [|split].
  - unfold untouched, touched.
    induction (activePowerUps g) as [|pu rest IH]; [reflexivity|].
    simpl. destruct (collides (fst (team1 g)) (body pu)); simpl; lia.
  - intros H. rewrite H. split; reflexivity.
  - intros before last H. rewrite H, rev_app_distr. split; reflexivity.
Qed.

Lemma powerUpCollisions_live (g : World) :
  power_up_live g = true ->
  power_up_live (fst (powerUpCollisions collides g)) = true.
Proof.
  unfold powerUpCollisions. rewrite collectPowerUps_closed_form.
  unfold power_up_live. simpl.
  destruct (rev (touched collides (fst (team1 g)) (activePowerUps g)));
    [intros H; exact H | intros _; reflexivity].
Qed.

Lemma powerUpTimer_live (g : World) :
  power_up_live g = true -> power_up_live (powerUpTimer g) = true.
Proof.
  unfold powerUpTimer, power_up_live.
  destruct (0 <? powerUpTimeLeft g); [|intros H; exact H].
  destruct (powerUpTimeLeft g - 1 / 60 <=? 0) eqn:E;
    cbn [set_powerUps playerPowerUp powerUpTimeLeft]; [intros _; reflexivity|].
  rewrite E. destruct (playerPowerUp g); intros _; reflexivity.
Qed.

Lemma same_powerUps_live (g g' : World) :
  same_powerUps g g' -> power_up_live g = true -> power_up_live g' = true.
Proof.
  unfold same_powerUps, power_up_live. intros [_ [P T]]. rewrite P, T.
  intros H; exact H.
Qed.

Lemma playerMovement_same_powerUps (g : World) : same_powerUps g (playerMovement g).
Proof. repeat split. Qed.

Lemma magnetBall_same_powerUps (g : World) : same_powerUps g (magnetBall g).
Proof.
  unfold magnetBall.
  destruct (is_powerUp (playerPowerUp g) MAGNET_BALL); [|apply same_powerUps_refl].
  match goal with |- context [if ?c then _ else _] => destruct c end;
    repeat split.
Qed.

Lemma aiMovement_same_powerUps (g : World) :
  same_powerUps g (fst (aiMovement g)).
Proof.
  unfold aiMovement.
  destruct (moveAI g (team2 g) (leftGoal g) (ball g)) as [[t2 b2] es1].
  match goal with
  | |- context [match ?e with pair _ _ => _ end] => destruct e as [[mates b3] es2]
  end.
  repeat split.
Qed.

(** The power-up variables after a tick are those the pickup block and
    the timer block leave. *)
Lemma beforeUpdate_powerUps (g : World) :
  same_powerUps
    (powerUpTimer (fst (powerUpCollisions collides (magnetBall (playerMovement g)))))
    (fst (beforeUpdate collides g)).
Proof.
  unfold beforeUpdate.
  destruct (powerUpCollisions collides (magnetBall (playerMovement g)))
    as [g3 es0].
  simpl.
  assert (K := aiMovement_same_powerUps (powerUpTimer g3)).
  destruct (aiMovement (powerUpTimer g3)) as [g5 es1]. simpl in *.
  unfold same_powerUps in *. simpl. exact K.
Qed.

Lemma beforeUpdate_live (g : World) :
  power_up_live g = true ->
  power_up_live (fst (beforeUpdate collides g)) = true.
Proof.
  intros L.
  apply (same_powerUps_live _ _ (beforeUpdate_powerUps g)).
  apply powerUpTimer_live, powerUpCollisions_live.
  apply (same_powerUps_live _ _ (magnetBall_same_powerUps (playerMovement g))).
  apply (same_powerUps_live _ _ (playerMovement_same_powerUps g)), L.
Qed.

Lemma on_pair_same_powerUps (st : World * Score * list Effect) (pair : Pair) :
  same_powerUps (fst (fst st)) (fst (fst (on_pair st pair))).
Proof.
  destruct st as [[g sc] es]. unfold on_pair.
  repeat match goal with
         | |- context [if ?c then _ else _] => destruct c
         end; repeat split.
Qed.

Lemma collisionStart_same_powerUps (pairs : list Pair) (g : World) (sc : Score) :
  same_powerUps g (fst (fst (collisionStart pairs g sc))).
Proof.
  unfold collisionStart.
  assert (G : forall st, same_powerUps (fst (fst st))
                           (fst (fst (fold_left on_pair pairs st)))).
  { induction pairs as [|pair rest IH]; intros st; cbn [fold_left].
    - apply same_powerUps_refl.
    - eapply same_powerUps_trans; [apply on_pair_same_powerUps | apply IH]. }
  apply (G (g, sc, [])).
Qed.

Lemma handleSpacebar_same_powerUps (code : string) (g : World) :
  same_powerUps g (fst (handleSpacebar code g)).
Proof.
  unfold handleSpacebar. destruct (String.eqb code "Space");
    [|apply same_powerUps_refl].
  destruct (kickBall g (fst (team1 g)) (ball g)) as [b es]. repeat split.
Qed.

(** Apart from the tick, no input touches the held power-up or its
    timer. *)
Lemma dispatch_holds (st : World * Score) (i : Loop.Input) :
  is_beforeUpdate i = false ->
  let g' := world_of (Loop.dispatch collides st i) in
  playerPowerUp g' = playerPowerUp (fst st)
  /\ powerUpTimeLeft g' = powerUpTimeLeft (fst st).
Proof.
  destruct st as [g sc]. intros N. unfold world_of, Loop.dispatch.
  destruct i as [ | motion | pairs | key code | key | i r1 r2 r3 ];
    try discriminate N; simpl.
  - split; reflexivity.
  - destruct (collisionStart_same_powerUps pairs g sc) as [_ [P T]].
    split; assumption.
  - destruct (handleSpacebar_same_powerUps code
                (set_keys g (set_key key true (keys g)))) as [_ [P T]].
    destruct (handleSpacebar code (set_keys g (set_key key true (keys g))))
      as [g2 es2].
    simpl in *. split; assumption.
  - split; reflexivity.
  - split; reflexivity.
Qed.

Lemma dispatch_live (st : World * Score) (i : Loop.Input) :
  power_up_live (fst st) = true ->
  power_up_live (world_of (Loop.dispatch collides st i)) = true.
Proof.
  intros L. destruct (is_beforeUpdate i) eqn:B.
  - destruct i; try discriminate B. destruct st as [g sc].
    unfold world_of, Loop.dispatch.
    assert (K := beforeUpdate_live g L).
    destruct (beforeUpdate collides g) as [g' es]. exact K.
  - destruct (dispatch_holds st i B) as [P T].
    unfold power_up_live in *. rewrite P, T. exact L.
Qed.

Lemma play_cons (st : World * Score) (i : Loop.Input) (rest : list Loop.Input) :
  world_of (Loop.play collides st (i :: rest))
  = world_of (Loop.play collides
                (world_of (Loop.dispatch collides st i),
                 score_of (Loop.dispatch collides st i)) rest)
  /\ score_of (Loop.play collides st (i :: rest))
     = score_of (Loop.play collides
                   (world_of (Loop.dispatch collides st i),
                    score_of (Loop.dispatch collides st i)) rest).
Proof.
  unfold world_of, score_of. cbn [Loop.play].
  destruct (Loop.dispatch collides st i) as [[g sc] es].
  cbn [fst snd].
  destruct (Loop.play collides (g, sc) rest) as [[g' sc'] es'].
  split; reflexivity.
Qed.

(** X5: a power-up is never held with an expired timer.  From the world
    the effect creates, and from every world where this holds, whatever
    the sequence of ticks, engine steps, goals, key events and spawns,
    [playerPowerUp] is [null] or [powerUpTimeLeft <= 0] is false. *)
Theorem held_power_up_has_time_left (inputs : list Loop.Input)
    (g : World) (sc : Score) :
  power_up_live g = true ->
  power_up_live (world_of (Loop.play collides (g, sc) inputs)) = true.
Proof.
  revert g sc. induction inputs as [|i rest IH]; intros g sc L.
  - exact L.
  - destruct (play_cons (g, sc) i rest) as [W _]. rewrite W.
    apply IH. apply (dispatch_live (g, sc) i L).
Qed.

End PowerUpFacts.

Lemma held_power_up_has_time_left_witness :
  power_up_live
    (world_of
       (Loop.play Cases.always_collides (Samples.world, Cases.nil_nil)
          [Loop.PowerUpInterval 40 0.5 0.5 0.5; Loop.BeforeUpdate;
           Loop.KeyDown " " "Space"; Loop.BeforeUpdate])) = true.
Proof.
  exact (held_power_up_has_time_left Cases.always_collides
           [Loop.PowerUpInterval 40 0.5 0.5 0.5; Loop.BeforeUpdate;
            Loop.KeyDown " " "Space"; Loop.BeforeUpdate]
           Samples.world Cases.nil_nil eq_refl).
Defined.

(** ** How long a power-up lasts *)

Section PowerUpDuration.

Import PowerUps Terms.

Variable collides : Body -> Body -> bool.

Hypothesis never_touches : forall a b, collides a b = false.









End PowerUpDuration.


(** ** The cast never changes *)

Section Cast.

Import PowerUps Terms.

Variable collides : Body -> Body -> bool.

Lemma same_cast_refl (g : World) : same_cast g g.
Proof. repeat split. Qed.

Lemma same_cast_trans (g1 g2 g3 : World) :
  same_cast g1 g2 -> same_cast g2 g3 -> same_cast g1 g3.
Proof.
  unfold same_cast.
  intros [A1 [B1 [C1 [D1 [E1 [F1 G1]]]]]] [A2 [B2 [C2 [D2 [E2 [F2 G2]]]]]].
  repeat split; congruence.
Qed.

Lemma kickBall_id (g : World) (kicker b : Body) :
  id (fst (kickBall g kicker b)) = id b.
Proof.
  unfold kickBall.
  destruct (Vector.magnitude (Vector.sub (position b) (position kicker)) <? 50);
    reflexivity.
Qed.

Lemma moveAI_ids (g : World) (team : list Body) (goal b : Body) :
  map id (fst (fst (moveAI g team goal b))) = map id team
  /\ id (snd (fst (moveAI g team goal b))) = id b.
Proof.
  revert b. induction team as [|player rest IH]; intros b; simpl.
  - split; reflexivity.
  - match goal with
    | |- context [match ?e with pair _ _ => _ end] =>
        assert (K : id (fst e) = id b);
        [ repeat match goal with
                 | |- context [if ?c then _ else _] => destruct c
                 end;
          try apply kickBall_id; reflexivity
        | destruct e as [b1 es1] ]
    end.
    simpl in K. specialize (IH b1).
    destruct (moveAI g rest goal b1) as [[rest' b2] es2]. simpl in *.
    destruct IH as [I1 I2]. split; congruence.
Qed.

Lemma aiMovement_same_cast (g : World) : same_cast g (fst (aiMovement g)).
Proof.
  unfold aiMovement.
  assert (A := moveAI_ids g (team2 g) (leftGoal g) (ball g)).
  destruct (moveAI g (team2 g) (leftGoal g) (ball g)) as [[t2 b2] es1].
  simpl in A.
  set (g3 := set_ball (set_team2 g t2) b2).
  assert (B := moveAI_ids g3 (snd (team1 g3)) (rightGoal g3) (ball g3)).
  destruct (moveAI g3 (snd (team1 g3)) (rightGoal g3) (ball g3))
    as [[mates b3] es2].
  simpl in B. destruct A as [A1 A2], B as [B1 B2].
  unfold same_cast. simpl. repeat split; congruence.
Qed.

Lemma playerMovement_same_cast (g : World) : same_cast g (playerMovement g).
Proof.
  unfold playerMovement, same_cast. simpl.
  match goal with |- context [if ?c then _ else _] => destruct c end;
    repeat split.
Qed.

Lemma magnetBall_same_cast (g : World) : same_cast g (magnetBall g).
Proof.
  unfold magnetBall.
  destruct (is_powerUp (playerPowerUp g) MAGNET_BALL); [|apply same_cast_refl].
  match goal with |- context [if ?c then _ else _] => destruct c end;
    repeat split.
Qed.

Lemma powerUpCollisions_same_cast (g : World) :
  same_cast g (fst (powerUpCollisions collides g)).
Proof.
  unfold powerUpCollisions.
  destruct (collectPowerUps collides (fst (team1 g)) (activePowerUps g)
              (playerPowerUp g) (powerUpTimeLeft g)) as [[[kept p] t] es].
  repeat split.
Qed.

Lemma powerUpTimer_same_cast (g : World) : same_cast g (powerUpTimer g).
Proof.
  unfold powerUpTimer.
  destruct (0 <? powerUpTimeLeft g); [|apply same_cast_refl].
  destruct (powerUpTimeLeft g - 1 / 60 <=? 0); repeat split.
Qed.

Lemma keepBallInField_id (g : World) (b : Body) : id (keepBallInField g b) = id b.
Proof.
  unfold keepBallInField.
  repeat match goal with
         | |- context [if ?c then _ else _] => destruct c
         end; reflexivity.
Qed.

Lemma beforeUpdate_same_cast (g : World) :
  same_cast g (fst (beforeUpdate collides g)).
Proof.
  unfold beforeUpdate.
  assert (K1 := playerMovement_same_cast g).
  assert (K2 := magnetBall_same_cast (playerMovement g)).
  assert (K3 := powerUpCollisions_same_cast (magnetBall (playerMovement g))).
  destruct (powerUpCollisions collides (magnetBall (playerMovement g)))
    as [g3 es0].
  simpl in K3.
  assert (K4 := powerUpTimer_same_cast g3).
  assert (K5 := aiMovement_same_cast (powerUpTimer g3)).
  destruct (aiMovement (powerUpTimer g3)) as [g5 es1]. simpl in K5.
  assert (K6 : same_cast g5 (set_ball g5 (keepBallInField g5 (ball g5)))).
  { unfold same_cast. simpl. rewrite keepBallInField_id. repeat split. }
  cbn [fst].
  apply (same_cast_trans _ _ _ K1).
  apply (same_cast_trans _ _ _ K2).
  apply (same_cast_trans _ _ _ K3).
  apply (same_cast_trans _ _ _ K4).
  apply (same_cast_trans _ _ _ K5).
  exact K6.
Qed.

Lemma resetTeam_ids (g : World) (x0 i : float) (team : list Body) :
  map id (resetTeam g x0 i team) = map id team.
Proof.
  revert i. induction team as [|p rest IH]; intros i; [reflexivity|].
  simpl. rewrite IH. reflexivity.
Qed.

Lemma resetPositions_same_cast (g : World) : same_cast g (resetPositions g).
Proof.
  unfold same_cast, resetPositions. simpl.
  rewrite !resetTeam_ids. repeat split.
Qed.

Lemma on_pair_same_cast (st : World * Score * list Effect) (pair : Pair) :
  same_cast (fst (fst st)) (fst (fst (on_pair st pair))).
Proof.
  destruct st as [[g sc] es]. unfold on_pair.
  repeat match goal with
         | |- context [if ?c then _ else _] => destruct c
         end;
    try apply same_cast_refl; apply resetPositions_same_cast.
Qed.

Lemma collisionStart_same_cast (pairs : list Pair) (g : World) (sc : Score) :
  same_cast g (fst (fst (collisionStart pairs g sc))).
Proof.
  unfold collisionStart.
  assert (G : forall st, same_cast (fst (fst st))
                           (fst (fst (fold_left on_pair pairs st)))).
  { induction pairs as [|pair rest IH]; intros st; cbn [fold_left].
    - apply same_cast_refl.
    - eapply same_cast_trans; [apply on_pair_same_cast | apply IH]. }
  apply (G (g, sc, [])).
Qed.

Lemma engineUpdate_same_cast (motion : Body -> Vector * Vector) (g : World) :
  same_cast g (Loop.engineUpdate motion g).
Proof.
  unfold same_cast, Loop.engineUpdate. simpl.
  rewrite !map_map. simpl. repeat split.
Qed.

Lemma dispatch_same_cast (st : World * Score) (i : Loop.Input) :
  same_cast (fst st) (world_of (Loop.dispatch collides st i)).
Proof.
  destruct st as [g sc]. unfold world_of, Loop.dispatch.
  destruct i as [ | motion | pairs | key code | key | i r1 r2 r3 ]; simpl.
  - assert (K := beforeUpdate_same_cast g).
    destruct (beforeUpdate collides g) as [g' es]. exact K.
  - apply engineUpdate_same_cast.
  - apply collisionStart_same_cast.
  - unfold handleSpacebar. destruct (String.eqb code "Space").
    + assert (K := kickBall_id (set_keys g (set_key key true (keys g)))
                     (fst (team1 g)) (ball g)).
      simpl.
      destruct (kickBall (set_keys g (set_key key true (keys g)))
                  (fst (team1 g)) (ball g)) as [b es].
      unfold same_cast. simpl in *. rewrite K. repeat split.
    + repeat split.
  - repeat split.
  - repeat split.
Qed.

Lemma play_same_cast (inputs : list Loop.Input) (g : World) (sc : Score) :
  same_cast g (world_of (Loop.play collides (g, sc) inputs)).
Proof.
  revert g sc. induction inputs as [|i rest IH]; intros g sc.
  - apply same_cast_refl.
  - destruct (play_cons collides (g, sc) i rest) as [W _]. rewrite W.
    eapply same_cast_trans; [apply (dispatch_same_cast (g, sc) i) | apply IH].
Qed.

(** X7: the cast never changes.  Through any sequence of ticks, engine
    steps, goals, key events and power-up spawns, both teams consist of
    the same bodies in the same order ([team1[0]] stays the player's
    body), the ball is the same body, and the goals and the window size
    the listeners work with are those of the mount. *)
Theorem listeners_keep_the_cast (inputs : list Loop.Input)
    (g : World) (sc : Score) :
  let g' := world_of (Loop.play collides (g, sc) inputs) in
  map id (fst (team1 g') :: snd (team1 g'))
  = map id (fst (team1 g) :: snd (team1 g))
  /\ map id (team2 g') = map id (team2 g)
  /\ id (ball g') = id (ball g)
  /\ leftGoal g' = leftGoal g
  /\ rightGoal g' = rightGoal g
  /\ width g' = width g
  /\ height g' = height g.
Proof.
  exact (play_same_cast inputs g sc).
Qed.

End Cast.

(** ** Goals, counted over a whole collision event *)

Section GoalCount.

Import PowerUps Terms.

(** What the listener does with one pair, by the kind of the pair. *)
Lemma on_pair_by_kind (g : World) (sc : Score) (es : list Effect) (pair : Pair) :
  distinct_ids g = true ->
  on_pair (g, sc, es) pair
  = if goal_pair g (leftGoal g) pair then
      (resetPositions g,
       {| player1 := player1 sc; player2 := player2 sc + 1 |},
       es ++ [Play goalSound; GoalFlash])
    else if goal_pair g (rightGoal g) pair then
      (resetPositions g,
       {| player1 := player1 sc + 1; player2 := player2 sc |},
       es ++ [Play goalSound; GoalFlash])
    else (g, sc, es).
Proof.
  unfold distinct_ids, goal_pair, on_pair, same_body. intros D.
  apply andb_true_iff in D. destruct D as [D D3].
  apply andb_true_iff in D. destruct D as [D1 D2].
  apply negb_true_iff, Nat.eqb_neq in D1, D2, D3.
  destruct (Nat.eqb_spec (id (bodyA pair)) (id (ball g)));
    destruct (Nat.eqb_spec (id (bodyB pair)) (id (ball g)));
    destruct (Nat.eqb_spec (id (bodyA pair)) (id (leftGoal g)));
    destruct (Nat.eqb_spec (id (bodyB pair)) (id (leftGoal g)));
    destruct (Nat.eqb_spec (id (bodyA pair)) (id (rightGoal g)));
    destruct (Nat.eqb_spec (id (bodyB pair)) (id (rightGoal g)));
    simpl; try reflexivity; exfalso; congruence.
Qed.

Lemma goals_in_reset (g : World) (pairs : list Pair) :
  goals_in (resetPositions g) (leftGoal (resetPositions g)) pairs
  = goals_in g (leftGoal g) pairs
  /\ goals_in (resetPositions g) (rightGoal (resetPositions g)) pairs
     = goals_in g (rightGoal g) pairs.
Proof. split; reflexivity. Qed.

(** A pair cannot be a goal on both sides. *)
Lemma goal_pair_exclusive (g : World) (pair : Pair) :
  distinct_ids g = true ->
  goal_pair g (leftGoal g) pair = true ->
  goal_pair g (rightGoal g) pair = false.
Proof.
  unfold goal_pair, distinct_ids, same_body. intros D L.
  apply andb_true_iff in D. destruct D as [D D3].
  apply andb_true_iff in D. destruct D as [D1 D2].
  apply negb_true_iff, Nat.eqb_neq in D1, D2, D3.
  destruct (Nat.eqb_spec (id (bodyA pair)) (id (ball g)));
    destruct (Nat.eqb_spec (id (bodyB pair)) (id (ball g)));
    destruct (Nat.eqb_spec (id (bodyA pair)) (id (leftGoal g)));
    destruct (Nat.eqb_spec (id (bodyB pair)) (id (leftGoal g)));
    destruct (Nat.eqb_spec (id (bodyA pair)) (id (rightGoal g)));
    destruct (Nat.eqb_spec (id (bodyB pair)) (id (rightGoal g)));
    simpl in *; try reflexivity; try discriminate; exfalso; congruence.
Qed.

Lemma collisionStart_count (pairs : list Pair) (g : World) (sc : Score)
    (es : list Effect) :
  distinct_ids g = true ->
  let r := fold_left on_pair pairs (g, sc, es) in
  let nl := List.length (goals_in g (leftGoal g) pairs) in
  let nr := List.length (goals_in g (rightGoal g) pairs) in
  player1 (score_of r) = (player1 sc + Z.of_nat nr)%Z
  /\ player2 (score_of r) = (player2 sc + Z.of_nat nl)%Z
  /\ snd r = es ++ List.concat (repeat [Play goalSound; GoalFlash] (nl + nr))
  /\ world_of r = Nat.iter (nl + nr) resetPositions g.
Proof.
  revert g sc es. induction pairs as [|pair rest IH]; intros g sc es D.
  - cbv zeta. unfold score_of, world_of, goals_in.
    cbn [fold_left filter List.length Nat.add repeat List.concat Nat.iter nat_rect
         fst snd].
    rewrite app_nil_r, !Z.add_0_r. repeat split.
  - cbn [fold_left]. rewrite (on_pair_by_kind g sc es pair D).
    unfold goals_in in *. cbn [filter].
    destruct (goal_pair g (leftGoal g) pair) eqn:L;
      [|destruct (goal_pair g (rightGoal g) pair) eqn:R].
    + rewrite (goal_pair_exclusive g pair D L).
      specialize (IH (resetPositions g)
                     {| player1 := player1 sc; player2 := player2 sc + 1 |}
                     (es ++ [Play goalSound; GoalFlash]) D).
      cbv zeta in IH.
      change (filter (goal_pair (resetPositions g) (leftGoal (resetPositions g))) rest)
        with (filter (goal_pair g (leftGoal g)) rest) in IH.
      change (filter (goal_pair (resetPositions g) (rightGoal (resetPositions g))) rest)
        with (filter (goal_pair g (rightGoal g)) rest) in IH.
      destruct IH as [I1 [I2 [I3 I4]]].
      cbv zeta. cbn [List.length Nat.add]. rewrite I1, I2, I3, I4.
      cbn [player1 player2].
      split; [lia|]. split; [lia|]. split.
      * cbn [repeat List.concat]. rewrite <- app_assoc. reflexivity.
      * rewrite Nat.iter_succ_r. reflexivity.
    + specialize (IH (resetPositions g)
                     {| player1 := player1 sc + 1; player2 := player2 sc |}
                     (es ++ [Play goalSound; GoalFlash]) D).
      cbv zeta in IH.
      change (filter (goal_pair (resetPositions g) (leftGoal (resetPositions g))) rest)
        with (filter (goal_pair g (leftGoal g)) rest) in IH.
      change (filter (goal_pair (resetPositions g) (rightGoal (resetPositions g))) rest)
        with (filter (goal_pair g (rightGoal g)) rest) in IH.
      destruct IH as [I1 [I2 [I3 I4]]].
      cbv zeta. cbn [List.length Nat.add]. rewrite I1, I2, I3, I4.
      cbn [player1 player2]. rewrite Nat.add_succ_r.
      split; [lia|]. split; [lia|]. split.
      * cbn [repeat List.concat]. rewrite <- app_assoc. reflexivity.
      * rewrite Nat.iter_succ_r. reflexivity.
    + specialize (IH g sc es D). cbv zeta in IH. exact IH.
Qed.

(** X8: a collision event as a whole.  With ball and goals distinct
    bodies: after the listener has gone through the pairs of one event,
    player 1 has as many points more as there are ball / right-goal
    pairs in it and player 2 as many as there are ball / left-goal
    pairs; what the listener did to the outside is one goal sound
    followed by one flash for each of these goals, and nothing else; and
    the world is the one before with [resetPositions] run once for each
    goal, so that an event without goal pair leaves it untouched. *)
Theorem collision_event_counts_its_goals (pairs : list Pair)
    (g : World) (sc : Score) :
  distinct_ids g = true ->
  let r := collisionStart pairs g sc in
  let nl := List.length (goals_in g (leftGoal g) pairs) in
  let nr := List.length (goals_in g (rightGoal g) pairs) in
  player1 (score_of r) = (player1 sc + Z.of_nat nr)%Z
  /\ player2 (score_of r) = (player2 sc + Z.of_nat nl)%Z
  /\ snd r = List.concat (repeat [Play goalSound; GoalFlash] (nl + nr))
  /\ world_of r = Nat.iter (nl + nr) resetPositions g.
Proof.
  intros D. apply (collisionStart_count pairs g sc [] D).
Qed.

End GoalCount.

Lemma collision_event_counts_its_goals_witness :
  PowerUps.player1
    (score_of (PowerUps.collisionStart Cases.busy_event Samples.world
                 Cases.nil_nil)) = 1%Z
  /\ PowerUps.player2
       (score_of (PowerUps.collisionStart Cases.busy_event Samples.world
                    Cases.nil_nil)) = 2%Z.
Proof.
  assert (H := collision_event_counts_its_goals Cases.busy_event
                 Samples.world Cases.nil_nil eq_refl).
  cbv zeta in H.
  exact (conj (proj1 H) (proj1 (proj2 H))).
Defined.

(** ** Keys and the player's movement *)

Section Keys.

Import PowerUps.

(** X9: the arrow keys and the velocity the listener asks for.  The
    movement block of a tick makes one call
    [Body.setVelocity(team1[0], v)] and changes nothing else.  The
    horizontal component of [v] is negative exactly when ArrowLeft alone
    of the two horizontal keys is down, positive when ArrowRight alone
    is, and zero when both or neither are; the same for the vertical
    component with ArrowUp (negative) and ArrowDown.  With keys of one
    axis only, the size of [v] along it is exactly 5, or 7.5 under a
    speed boost; on a diagonal both components have the same size.
    (What the library stores for [v] is the position minus (the position
    minus [v]).) *)
Theorem arrow_keys_set_the_direction (g : World) :
  let k := keys g in
  let h := axis (ArrowLeft k) (ArrowRight k) in
  let u := axis (ArrowUp k) (ArrowDown k) in
  exists v : Vector,
    playerMovement g
    = set_team1 g (Body.setVelocity (fst (team1 g)) v, snd (team1 g))
    /\ sign_of (x v) = h
    /\ sign_of (y v) = u
    /\ (u = Eq -> h <> Eq -> abs (x v) = player_speed g)
    /\ (h = Eq -> u <> Eq -> abs (y v) = player_speed g)
    /\ (abs (x v) = abs (y v) \/ h = Eq \/ u = Eq).
Proof.
  destruct g as [w ht [me rest] t2 b lg rg act p tl k].
  unfold playerMovement, movePlayer, same_body, player_speed.
  cbn [keys team1 fst snd playerPowerUp].
  rewrite Nat.eqb_refl.
  destruct k as [[] [] [] []]; destruct p as [[]|];
    cbn [ArrowUp ArrowDown ArrowLeft ArrowRight axis is_powerUp andb];
    eexists;
    (split; [reflexivity|]);
    vm_compute;
    (split; [reflexivity|]);
    (split; [reflexivity|]);
    (split; [intros; try reflexivity; congruence|]);
    (split; [intros; try reflexivity; congruence|]);
    first [ left; reflexivity
          | right; left; reflexivity
          | right; right; reflexivity ].
Qed.

Lemma set_key_unbound (key : string) (value : bool) (k : Keys) :
  bound_key key = false -> set_key key value k = k.
Proof.
  unfold bound_key, set_key. intros B.
  destruct (String.eqb key "ArrowUp"); [discriminate B|].
  destruct (String.eqb key "ArrowDown"); [discriminate B|].
  destruct (String.eqb key "ArrowLeft"); [discriminate B|].
  destruct (String.eqb key "ArrowRight"); [discriminate B|].
  reflexivity.
Qed.

Lemma set_key_twice (key : string) (v1 v2 : bool) (k : Keys) :
  set_key key v2 (set_key key v1 k) = set_key key v2 k.
Proof.
  unfold set_key.
  destruct (String.eqb key "ArrowUp"); [reflexivity|].
  destruct (String.eqb key "ArrowDown"); [reflexivity|].
  destruct (String.eqb key "ArrowLeft"); [reflexivity|].
  destruct (String.eqb key "ArrowRight"); reflexivity.
Qed.

Lemma set_key_commute (key1 key2 : string) (v1 v2 : bool) (k : Keys) :
  key1 <> key2 ->
  set_key key1 v1 (set_key key2 v2 k) = set_key key2 v2 (set_key key1 v1 k).
Proof.
  intros N. unfold set_key.
  destruct (String.eqb_spec key1 "ArrowUp");
    destruct (String.eqb_spec key2 "ArrowUp");
    destruct (String.eqb_spec key1 "ArrowDown");
    destruct (String.eqb_spec key2 "ArrowDown");
    destruct (String.eqb_spec key1 "ArrowLeft");
    destruct (String.eqb_spec key2 "ArrowLeft");
    destruct (String.eqb_spec key1 "ArrowRight");
    destruct (String.eqb_spec key2 "ArrowRight");
    try reflexivity; subst; try congruence; discriminate.
Qed.

Lemma set_keys_same (g : World) : set_keys g (keys g) = g.
Proof. destruct g. reflexivity. Qed.

(** The four flags after [keys[key] = value]. *)
Lemma set_key_flags (key : string) (value : bool) (k : Keys) :
  ArrowUp (set_key key value k)
  = (if String.eqb key "ArrowUp" then value else ArrowUp k)
  /\ ArrowDown (set_key key value k)
     = (if String.eqb key "ArrowDown" then value else ArrowDown k)
  /\ ArrowLeft (set_key key value k)
     = (if String.eqb key "ArrowLeft" then value else ArrowLeft k)
  /\ ArrowRight (set_key key value k)
     = (if String.eqb key "ArrowRight" then value else ArrowRight k).
Proof.
  unfold set_key.
  destruct (String.eqb_spec key "ArrowUp");
    destruct (String.eqb_spec key "ArrowDown");
    destruct (String.eqb_spec key "ArrowLeft");
    destruct (String.eqb_spec key "ArrowRight");
    subst; try discriminate; repeat split.
Qed.

(** X10: the two key listeners.  After [handleKeyDown] each of the four
    flags of [keys] is [true] if the key pressed is its own and as
    before otherwise; after [handleKeyUp] it is [false] if the key
    released is its own and as before otherwise; so a key that is not an
    arrow key changes nothing at all.  Neither listener changes any
    other part of the world (window size, teams, ball, goals, power-ups
    on the field, held power-up, power-up timer) or emits anything.
    Releasing a key after pressing it leaves what releasing it alone
    leaves, pressing after releasing what pressing alone leaves, and the
    listeners for two different keys commute. *)
Theorem key_listeners_record_keys (key key' : string) (g : World) :
  let down := fst (handleKeyDown key g) in
  let up := fst (handleKeyUp key g) in
  (ArrowUp (keys down)
   = (if String.eqb key "ArrowUp" then true else ArrowUp (keys g))
   /\ ArrowDown (keys down)
      = (if String.eqb key "ArrowDown" then true else ArrowDown (keys g))
   /\ ArrowLeft (keys down)
      = (if String.eqb key "ArrowLeft" then true else ArrowLeft (keys g))
   /\ ArrowRight (keys down)
      = (if String.eqb key "ArrowRight" then true else ArrowRight (keys g)))
  /\ (ArrowUp (keys up)
      = (if String.eqb key "ArrowUp" then false else ArrowUp (keys g))
      /\ ArrowDown (keys up)
         = (if String.eqb key "ArrowDown" then false else ArrowDown (keys g))
      /\ ArrowLeft (keys up)
         = (if String.eqb key "ArrowLeft" then false else ArrowLeft (keys g))
      /\ ArrowRight (keys up)
         = (if String.eqb key "ArrowRight" then false else ArrowRight (keys g)))
  /\ (bound_key key = false -> down = g /\ up = g)
  /\ only_keys_differ g down
  /\ only_keys_differ g up
  /\ snd (handleKeyDown key g) = []
  /\ snd (handleKeyUp key g) = []
  /\ fst (handleKeyUp key down) = up
  /\ fst (handleKeyDown key up) = down
  /\ (key <> key' ->
      fst (handleKeyDown key (fst (handleKeyUp key' g)))
      = fst (handleKeyUp key' (fst (handleKeyDown key g)))).
Proof.
  cbv zeta. unfold handleKeyDown, handleKeyUp. cbn [fst snd].
  split; [exact (set_key_flags key true (keys g))|].
  split; [exact (set_key_flags key false (keys g))|].
  split; [|split; [|split; [|split; [|split; [|split; [|split]]]]]].
  - intros B. rewrite !(set_key_unbound key _ _ B), set_keys_same.
    split; reflexivity.
  - unfold only_keys_differ. cbn. repeat split.
  - unfold only_keys_differ. cbn. repeat split.
  - reflexivity.
  - reflexivity.
  - unfold set_keys. cbn [keys]. rewrite set_key_twice. reflexivity.
  - unfold set_keys. cbn [keys]. rewrite set_key_twice. reflexivity.
  - intros N. unfold set_keys. cbn [keys].
    rewrite (set_key_commute key key' true false (keys g) N). reflexivity.
Qed.

Lemma key_listeners_witness :
  fst (handleKeyDown "ArrowLeft" (fst (handleKeyUp "ArrowUp" Samples.world)))
  = fst (handleKeyUp "ArrowUp" (fst (handleKeyDown "ArrowLeft" Samples.world))).
Proof.
  apply (key_listeners_record_keys "ArrowLeft" "ArrowUp" Samples.world).
  discriminate.
Defined.

End Keys.

(** ** The replication path *)

Section Path.

Import Minimal.

Lemma receive_by_event (io : Server.Io) (s : Server.SocketId) (p : Packet) :
  Server.receive io s p
  = if is_move p then Server.broadcast_emit io s "move" (data p) else [].
Proof.
  unfold Server.receive, Server.listeners, Server.find_listener, is_move.
  rewrite String.eqb_sym. destruct (String.eqb (event p) "move"); reflexivity.
Qed.

Lemma inbox_app (r : Server.SocketId) (l1 l2 : list (Server.SocketId * Packet)) :
  Channel.inbox r (l1 ++ l2) = Channel.inbox r l1 ++ Channel.inbox r l2.
Proof. unfold Channel.inbox. rewrite filter_app, map_app. reflexivity. Qed.

Lemma inbox_broadcast (io : Server.Io) (s r : Server.SocketId) (ev : string)
    (d : Payload) :
  Channel.inbox r (Server.broadcast_emit io s ev d)
  = map (fun _ => {| event := ev; data := d |})
        (filter (fun q => Nat.eqb q r)
           (filter (fun q => negb (Nat.eqb q s)) (Server.sockets io))).
Proof.
  unfold Channel.inbox, Server.broadcast_emit.
  induction (filter (fun q => negb (Nat.eqb q s)) (Server.sockets io))
    as [|q rest IH]; [reflexivity|].
  simpl. destruct (Nat.eqb q r); simpl; rewrite IH; reflexivity.
Qed.

Lemma filter_eqb_NoDup (r : nat) (l : list nat) :
  NoDup l -> In r l -> filter (fun q => Nat.eqb q r) l = [r].
Proof.
  induction l as [|q rest IH]; intros N I; [destruct I|].
  inversion N as [|? ? Nq Nrest]; subst. simpl.
  destruct (Nat.eqb_spec q r) as [->|Ne].
  - f_equal. clear IH N Nrest I.
    induction rest as [|q' rest' IH']; [reflexivity|].
    simpl. destruct (Nat.eqb_spec q' r) as [->|Ne'].
    + exfalso. apply Nq. left. reflexivity.
    + apply IH'. intros I'. apply Nq. right. exact I'.
  - destruct I as [E|I]; [contradiction|]. apply IH; assumption.
Qed.

Lemma inbox_of_peer (io : Server.Io) (s r : Server.SocketId) (ev : string)
    (d : Payload) :
  NoDup (Server.sockets io) -> In r (Server.sockets io) -> r <> s ->
  Channel.inbox r (Server.broadcast_emit io s ev d)
  = [{| event := ev; data := d |}].
Proof.
  intros N I Ne. rewrite inbox_broadcast.
  rewrite filter_eqb_NoDup; [reflexivity | |].
  - apply NoDup_filter, N.
  - apply filter_In. split; [exact I|].
    apply negb_true_iff, Nat.eqb_neq, Ne.
Qed.

Lemma inbox_of_sender (io : Server.Io) (s : Server.SocketId) (ev : string)
    (d : Payload) :
  Channel.inbox s (Server.broadcast_emit io s ev d) = [].
Proof.
  rewrite inbox_broadcast.
  induction (Server.sockets io) as [|q rest IH]; [reflexivity|].
  simpl. destruct (Nat.eqb q s) eqn:E; simpl; [exact IH|].
  rewrite E. exact IH.
Qed.

Lemma move_packet_eta (p : Packet) :
  is_move p = true -> {| event := "move"; data := data p |} = p.
Proof.
  unfold is_move. destruct p as [ev d]. simpl. intros E.
  apply String.eqb_eq in E. subst ev. reflexivity.
Qed.

Lemma relay_inboxes (io : Server.Io) (s r : Server.SocketId)
    (ps : list Packet) :
  NoDup (Server.sockets io) ->
  In r (Server.sockets io) ->
  r <> s ->
  Channel.inbox r (Channel.relay io s ps) = filter is_move ps
  /\ Channel.inbox s (Channel.relay io s ps) = [].
Proof.
  intros N I Ne. unfold Channel.relay.
  induction ps as [|p rest [IH1 IH2]]; [split; reflexivity|].
  cbn [flat_map filter]. rewrite !inbox_app, IH1, IH2, receive_by_event.
  destruct (is_move p) eqn:M.
  - rewrite (inbox_of_peer io s r "move" (data p) N I Ne), inbox_of_sender.
    rewrite (move_packet_eta p M). split; reflexivity.
  - split; reflexivity.
Qed.

(** X12: the relay over a whole sequence.  Of the packets one socket
    sends, every other connected socket receives exactly the ['move']
    packets, unchanged and in the order sent, and nothing else; the
    sender receives none of them back.  (Socket identities are
    distinct.) *)
Theorem relay_keeps_moves_in_order (io : Server.Io) (s r : Server.SocketId)
    (ps : list Packet) :
  NoDup (Server.sockets io) ->
  In r (Server.sockets io) ->
  r <> s ->
  Channel.inbox r (Channel.relay io s ps) = filter is_move ps
  /\ Channel.inbox s (Channel.relay io s ps) = [].
Proof.
  exact (relay_inboxes io s r ps).
Qed.

Lemma relay_keeps_moves_in_order_witness :
  Channel.inbox 2%nat
    (Channel.relay {| Server.sockets := [1; 2; 3]%nat |} 1%nat
       [move_packet (player Samples.game); kick_packet (ball Samples.game);
        move_packet (aiPlayer Samples.game)])
  = [move_packet (player Samples.game); move_packet (aiPlayer Samples.game)].
Proof.
  apply (relay_keeps_moves_in_order {| Server.sockets := [1; 2; 3]%nat |}
           1%nat 2%nat).
  - repeat constructor; simpl; intuition discriminate.
  - simpl. auto.
  - discriminate.
Defined.

Lemma emitted_moves_only (io : Server.Io) (s r : Server.SocketId)
    (es : list Effect) :
  NoDup (Server.sockets io) -> In r (Server.sockets io) -> r <> s ->
  Channel.inbox r (Channel.relay io s (emitted es)) = moves es.
Proof.
  intros N I Ne.
  destruct (relay_inboxes io s r (emitted es) N I Ne) as [H _].
  exact H.
Qed.

(** X13: a key press, end to end.  When a client handles a [keydown],
    what every other connected client receives through the relay is one
    ['move'] packet, which carries the position and velocity of the
    sender's player (those it had before the key: the handler only
    applies forces).  The receiving client's ['move'] listener runs on
    it: the library translates that client's player by the sender's
    position minus its own and reads the sender's velocity back at the
    new position; the rest of its game is left alone.  Whatever the key
    (a kick included), nothing about the ball or the kick gets
    across. *)
Theorem keydown_reaches_peers_as_one_snapshot
    (io : Server.Io) (s r : Server.SocketId) (key : string) (g h : Game) :
  NoDup (Server.sockets io) ->
  In r (Server.sockets io) ->
  r <> s ->
  let g' := fst (handleKeyDown key g) in
  let arrived := Channel.inbox r
                   (Channel.relay io s (emitted (snd (handleKeyDown key g)))) in
  arrived = [move_packet (player g')]
  /\ same_motion (player g') (player g)
  /\ exists h',
      Channel.deliver_all arrived h = Some h'
      /\ (let p := position (player h) in
          let q := position (player g) in
          let p' := position (player h') in
          p' = {| x := x p + (x q - x p); y := y p + (y q - y p) |}
          /\ velocity (player h')
             = {| x := x p' - (x p' - x (velocity (player g)));
                  y := y p' - (y p' - y (velocity (player g))) |})
      /\ id (player h') = id (player h)
      /\ force (player h') = force (player h)
      /\ torque (player h') = torque (player h)
      /\ ball h' = ball h
      /\ aiPlayer h' = aiPlayer h
      /\ score h' = score h.
Proof.
  intros N I Ne g' arrived. subst g' arrived.
  rewrite (emitted_moves_only io s r _ N I Ne), handleKeyDown_moves.
  assert (P : same_motion (player (fst (handleKeyDown key g))) (player g)).
  { unfold handleKeyDown.
    repeat match goal with
           | |- context [if String.eqb ?a ?b then _ else _] =>
               destruct (String.eqb a b)
           end; try (split; reflexivity).
    destruct (kickBall (player g) (ball g)) as [b es]. split; reflexivity. }
  split; [unfold move_packet; destruct P as [P1 P2]; rewrite P1, P2;
          reflexivity|].
  split; [exact P|].
  destruct P as [P1 P2].
  eexists. split; [reflexivity|].
  cbv zeta. unfold on_move.
  cbn [set_player player ball aiPlayer score Body.setPosition Body.setVelocity
       Vector.sub position velocity id force torque x y
       Wire.position Wire.velocity].
  repeat split.
Qed.

Lemma keydown_reaches_peers_witness :
  Channel.inbox 2%nat
    (Channel.relay {| Server.sockets := [1; 2]%nat |} 1%nat
       (emitted (snd (handleKeyDown " " Samples.game))))
  = [move_packet (player (fst (handleKeyDown " " Samples.game)))].
Proof.
  apply (keydown_reaches_peers_as_one_snapshot
           {| Server.sockets := [1; 2]%nat |} 1%nat 2%nat " "
           Samples.game Samples.game).
  - repeat constructor; simpl; intuition discriminate.
  - simpl. auto.
  - discriminate.
Defined.

End Path.

(** ** What the local handlers of the minimal variant leave alone *)

Section LocalHandlers.

Import Minimal.

Lemma only_forces_differ_refl (g : Game) : only_forces_differ g g.
Proof. repeat split. Qed.

Lemma minimal_kickBall_same_motion (kicker b : Body) :
  same_motion (fst (kickBall kicker b)) b
  /\ id (fst (kickBall kicker b)) = id b.
Proof.
  unfold kickBall.
  destruct (Vector.magnitude (Vector.sub (position b) (position kicker)) <? 50);
    repeat split.
Qed.

Lemma handleKeyDown_only_forces (key : string) (g : Game) :
  only_forces_differ g (fst (handleKeyDown key g))
  /\ aiPlayer (fst (handleKeyDown key g)) = aiPlayer g.
Proof.
  unfold handleKeyDown.
  repeat match goal with
         | |- context [if String.eqb ?a ?b then _ else _] =>
             destruct (String.eqb a b)
         end; try (repeat split; fail).
  destruct (minimal_kickBall_same_motion (player g) (ball g)) as [[P V] I].
  destruct (kickBall (player g) (ball g)) as [b es].
  unfold only_forces_differ, same_motion. simpl in *.
  repeat split; assumption.
Qed.

Lemma moveAIPlayer_only_forces (g : Game) :
  only_forces_differ g (fst (moveAIPlayer g))
  /\ player (fst (moveAIPlayer g)) = player g.
Proof.
  unfold moveAIPlayer.
  match goal with
  | |- context [if ?c then let '(b, es) := ?k in _ else _] =>
      destruct c; [|repeat split]
  end.
  match goal with
  | |- context [match ?e with pair _ _ => _ end] =>
      assert (K : same_motion (fst e) (ball g) /\ id (fst e) = id (ball g))
        by apply minimal_kickBall_same_motion;
      destruct e as [b es]
  end.
  destruct K as [[P V] I].
  unfold only_forces_differ, same_motion. simpl in *.
  repeat split; assumption.
Qed.

(** X14: in the minimal variant neither the keyboard listener nor the
    tick moves anything itself.  After [handleKeyDown], whatever the key,
    and after [moveAIPlayer], the player, the AI player and the ball are
    the same bodies with the same positions and velocities (only force
    accumulators can differ), and goals, score and window size are as
    before; the keyboard never acts on the AI player, nor the tick on
    the player. *)
Theorem local_handlers_only_apply_forces (key : string) (g : Game) :
  only_forces_differ g (fst (handleKeyDown key g))
  /\ aiPlayer (fst (handleKeyDown key g)) = aiPlayer g
  /\ only_forces_differ g (fst (moveAIPlayer g))
  /\ player (fst (moveAIPlayer g)) = player g.
Proof.
  destruct (handleKeyDown_only_forces key g) as [A B].
  destruct (moveAIPlayer_only_forces g) as [C D].
  exact (conj A (conj B (conj C D))).
Qed.

(** X15: a kick does not replicate.  When the kicker is in range, the
    ['kick'] packet carries the position and velocity the ball had
    before the kick, and the kick itself is only in the ball's force
    accumulator.  A client that handles the packet has its ball
    translated by that position minus its own, the velocity read back at
    the new position, and keeps its own accumulators, player, AI player
    and score: no force arrives. *)
Theorem kick_packet_carries_no_kick (kicker b : Body) (h : Game) :
  (kick_distance kicker b <? 50) = true ->
  snd (kickBall kicker b) = [Emit (kick_packet b)]
  /\ same_motion (fst (kickBall kicker b)) b
  /\ force (fst (kickBall kicker b))
     = {| x := x (force b) + x (kick_direction kicker b) * 0.02;
          y := y (force b) + y (kick_direction kicker b) * 0.02 |}
  /\ (exists h',
        Channel.client_receive (kick_packet b) h = Some h'
        /\ (let p := position (ball h) in
            let p' := position (ball h') in
            p' = {| x := x p + (x (position b) - x p);
                    y := y p + (y (position b) - y p) |}
            /\ velocity (ball h')
               = {| x := x p' - (x p' - x (velocity b));
                    y := y p' - (y p' - y (velocity b)) |})
        /\ id (ball h') = id (ball h)
        /\ force (ball h') = force (ball h)
        /\ torque (ball h') = torque (ball h)
        /\ player h' = player h
        /\ aiPlayer h' = aiPlayer h
        /\ score h' = score h).
Proof.
  intros R. unfold kick_distance in R.
  split; [|split; [|split]].
  - unfold kickBall. rewrite R. reflexivity.
  - apply minimal_kickBall_same_motion.
  - unfold kickBall, kick_direction. rewrite R. reflexivity.
  - eexists. split; [reflexivity|]. repeat split.
Qed.

Lemma kick_packet_carries_no_kick_witness :
  snd (kickBall (Samples.at_rest 1 380 300) (ball Samples.game))
  = [Emit (kick_packet (ball Samples.game))].
Proof.
  apply (kick_packet_carries_no_kick (Samples.at_rest 1 380 300)
           (ball Samples.game) Samples.game).
  reflexivity.
Defined.

End LocalHandlers.

(** ** Goals in the minimal variant *)

Section MinimalGoals.

Import Minimal.

Lemma minimal_on_pair_by_kind (g : Game) (pair : Pair) :
  m_distinct_ids g = true ->
  on_pair g pair
  = if m_goal_pair g (leftGoal g) pair then
      resetPositions
        (set_score g {| player1 := player1 (score g);
                        player2 := player2 (score g) + 1 |})
    else if m_goal_pair g (rightGoal g) pair then
      resetPositions
        (set_score g {| player1 := player1 (score g) + 1;
                        player2 := player2 (score g) |})
    else g.
Proof.
  unfold m_distinct_ids, m_goal_pair, on_pair, same_body. intros D.
  apply andb_true_iff in D. destruct D as [D D3].
  apply andb_true_iff in D. destruct D as [D1 D2].
  apply negb_true_iff, Nat.eqb_neq in D1, D2, D3.
  destruct (Nat.eqb_spec (id (bodyA pair)) (id (ball g)));
    destruct (Nat.eqb_spec (id (bodyB pair)) (id (ball g)));
    destruct (Nat.eqb_spec (id (bodyA pair)) (id (leftGoal g)));
    destruct (Nat.eqb_spec (id (bodyB pair)) (id (leftGoal g)));
    destruct (Nat.eqb_spec (id (bodyA pair)) (id (rightGoal g)));
    destruct (Nat.eqb_spec (id (bodyB pair)) (id (rightGoal g)));
    simpl; try reflexivity; exfalso; congruence.
Qed.

Lemma m_goal_pair_exclusive (g : Game) (pair : Pair) :
  m_distinct_ids g = true ->
  m_goal_pair g (leftGoal g) pair = true ->
  m_goal_pair g (rightGoal g) pair = false.
Proof.
  unfold m_distinct_ids, m_goal_pair, same_body. intros D L.
  apply andb_true_iff in D. destruct D as [D D3].
  apply andb_true_iff in D. destruct D as [D1 D2].
  apply negb_true_iff, Nat.eqb_neq in D1, D2, D3.
  destruct (Nat.eqb_spec (id (bodyA pair)) (id (ball g)));
    destruct (Nat.eqb_spec (id (bodyB pair)) (id (ball g)));
    destruct (Nat.eqb_spec (id (bodyA pair)) (id (leftGoal g)));
    destruct (Nat.eqb_spec (id (bodyB pair)) (id (leftGoal g)));
    destruct (Nat.eqb_spec (id (bodyA pair)) (id (rightGoal g)));
    destruct (Nat.eqb_spec (id (bodyB pair)) (id (rightGoal g)));
    simpl in *; try reflexivity; try discriminate; exfalso; congruence.
Qed.

Lemma set_score_same (g : Game) : set_score g (score g) = g.
Proof. destruct g. reflexivity. Qed.

Lemma iter_reset_set_score (n : nat) (g : Game) (s : Score) :
  Nat.iter n resetPositions (set_score g s)
  = set_score (Nat.iter n resetPositions g) s.
Proof.
  induction n as [|n IH]; [reflexivity|].
  rewrite !Nat.iter_succ, IH. reflexivity.
Qed.

Lemma iter_reset_score (n : nat) (g : Game) :
  score (Nat.iter n resetPositions g) = score g.
Proof.
  induction n as [|n IH]; [reflexivity|].
  rewrite Nat.iter_succ. exact IH.
Qed.

(** X16: a collision event in the minimal variant.  With ball and goals
    distinct bodies, after the listener has gone through the pairs of
    one event player 1 has one point more for each ball / right-goal
    pair and player 2 one for each ball / left-goal pair, and the rest
    of the game is the one before with [resetPositions] run once for
    each of these goals: without such a pair the game is untouched. *)
Theorem minimal_collision_event_counts_its_goals (pairs : list Pair) (g : Game) :
  m_distinct_ids g = true ->
  let g' := collisionStart pairs g in
  let nl := List.length (filter (m_goal_pair g (leftGoal g)) pairs) in
  let nr := List.length (filter (m_goal_pair g (rightGoal g)) pairs) in
  player1 (score g') = (player1 (score g) + Z.of_nat nr)%Z
  /\ player2 (score g') = (player2 (score g) + Z.of_nat nl)%Z
  /\ set_score g' (score g) = Nat.iter (nl + nr) resetPositions g
  /\ ((nl + nr = 0)%nat -> g' = g).
Proof.
  unfold collisionStart. revert g.
  assert (G : forall g, m_distinct_ids g = true ->
            let g' := fold_left on_pair pairs g in
            let nl := List.length (filter (m_goal_pair g (leftGoal g)) pairs) in
            let nr := List.length (filter (m_goal_pair g (rightGoal g)) pairs) in
            player1 (score g') = (player1 (score g) + Z.of_nat nr)%Z
            /\ player2 (score g') = (player2 (score g) + Z.of_nat nl)%Z
            /\ set_score g' (score g) = Nat.iter (nl + nr) resetPositions g).
  { induction pairs as [|pair rest IH]; intros g D.
    - cbv zeta. cbn [fold_left filter List.length Nat.add Nat.iter nat_rect].
      rewrite set_score_same. split; [lia|]. split; [lia|reflexivity].
    - cbn [fold_left filter]. rewrite (minimal_on_pair_by_kind g pair D).
      destruct (m_goal_pair g (leftGoal g) pair) eqn:L;
        [rewrite (m_goal_pair_exclusive g pair D L)
        |destruct (m_goal_pair g (rightGoal g) pair) eqn:R].
      + set (s1 := {| player1 := player1 (score g);
                      player2 := player2 (score g) + 1 |}).
        set (g1 := resetPositions (set_score g s1)).
        specialize (IH g1 D). cbv zeta in IH.
        change (filter (m_goal_pair g1 (leftGoal g1)) rest)
          with (filter (m_goal_pair g (leftGoal g)) rest) in IH.
        change (filter (m_goal_pair g1 (rightGoal g1)) rest)
          with (filter (m_goal_pair g (rightGoal g)) rest) in IH.
        destruct IH as [I1 [I2 I3]].
        cbv zeta. cbn [List.length Nat.add]. rewrite I1, I2.
        change (player1 (score g1)) with (player1 (score g)).
        change (player2 (score g1)) with (player2 (score g) + 1)%Z.
        split; [lia|]. split; [lia|].
        rewrite Nat.iter_succ_r.
        change (score g1) with s1 in I3.
        change g1 with (set_score (resetPositions g) s1) in I3.
        rewrite iter_reset_set_score in I3.
        apply (f_equal (fun x => set_score x (score g))) in I3.
        cbn [set_score width height player aiPlayer ball leftGoal rightGoal]
          in I3.
        rewrite <- (set_score_same
                      (Nat.iter _ resetPositions (resetPositions g))).
        rewrite iter_reset_score.
        change (score (resetPositions g)) with (score g).
        exact I3.
      + set (s1 := {| player1 := player1 (score g) + 1;
                      player2 := player2 (score g) |}).
        set (g1 := resetPositions (set_score g s1)).
        specialize (IH g1 D). cbv zeta in IH.
        change (filter (m_goal_pair g1 (leftGoal g1)) rest)
          with (filter (m_goal_pair g (leftGoal g)) rest) in IH.
        change (filter (m_goal_pair g1 (rightGoal g1)) rest)
          with (filter (m_goal_pair g (rightGoal g)) rest) in IH.
        destruct IH as [I1 [I2 I3]].
        cbv zeta. cbn [List.length Nat.add]. rewrite I1, I2.
        change (player1 (score g1)) with (player1 (score g) + 1)%Z.
        change (player2 (score g1)) with (player2 (score g)).
        rewrite Nat.add_succ_r.
        split; [lia|]. split; [lia|].
        rewrite Nat.iter_succ_r.
        change (score g1) with s1 in I3.
        change g1 with (set_score (resetPositions g) s1) in I3.
        rewrite iter_reset_set_score in I3.
        apply (f_equal (fun x => set_score x (score g))) in I3.
        cbn [set_score width height player aiPlayer ball leftGoal rightGoal]
          in I3.
        rewrite <- (set_score_same
                      (Nat.iter _ resetPositions (resetPositions g))).
        rewrite iter_reset_score.
        change (score (resetPositions g)) with (score g).
        exact I3.
      + apply (IH g D). }
  intros g D. destruct (G g D) as [A [B C]]. cbv zeta in *.
  split; [exact A|]. split; [exact B|]. split; [exact C|].
  intros Z. rewrite Z in C. cbn [Nat.iter nat_rect] in C.
  assert (SC : score (fold_left on_pair pairs g) = score g).
  { destruct (score (fold_left on_pair pairs g)) as [a b] eqn:E.
    destruct (score g) as [c d] eqn:E'. cbn [player1 player2] in A, B.
    f_equal; lia. }
  rewrite <- SC in C. rewrite set_score_same in C. exact C.
Qed.

End MinimalGoals.

Lemma minimal_collision_event_witness :
  Minimal.player2
    (Minimal.score
       (Minimal.collisionStart
          [{| Minimal.bodyA := Minimal.leftGoal Samples.game;
              Minimal.bodyB := Minimal.ball Samples.game |};
           {| Minimal.bodyA := Minimal.ball Samples.game;
              Minimal.bodyB := Minimal.leftGoal Samples.game |}]
          Samples.game)) = 2%Z.
Proof.
  assert (H := minimal_collision_event_counts_its_goals
                 [{| Minimal.bodyA := Minimal.leftGoal Samples.game;
                     Minimal.bodyB := Minimal.ball Samples.game |};
                  {| Minimal.bodyA := Minimal.ball Samples.game;
                     Minimal.bodyB := Minimal.leftGoal Samples.game |}]
                 Samples.game eq_refl).
  cbv zeta in H.
  exact (proj1 (proj2 H)).
Defined.

(** ** The AI loop *)

Section AILoop.

Import PowerUps.

Variable collides : Body -> Body -> bool.

Lemma kick_packet_same_motion (b b' : Body) :
  same_motion b' b -> kick_packet b' = kick_packet b.
Proof. intros [P V]. unfold kick_packet. rewrite P, V. reflexivity. Qed.

Lemma kickBall_emits (g : World) (kicker b : Body) :
  Forall (fun p => p = kick_packet b) (emitted (snd (kickBall g kicker b)))
  /\ (List.length (emitted (snd (kickBall g kicker b))) <= 1)%nat.
Proof.
  unfold kickBall.
  destruct (Vector.magnitude (Vector.sub (position b) (position kicker)) <? 50);
    simpl; split; repeat constructor.
Qed.

(** One pass of [moveAI]: who is steered where, and what is emitted. *)
Lemma moveAI_chases (g : World) (team : list Body) (goal b : Body) :
  none_is (fst (team1 g)) team = true ->
  let r := moveAI g team goal b in
  fst (fst r) = map (fun p => Body.setVelocity p (chase b p)) team
  /\ Forall (fun p => p = kick_packet b) (emitted (snd r))
  /\ (List.length (emitted (snd r)) <= List.length team)%nat.
Proof.
  revert b. induction team as [|player rest IH]; intros b N.
  - simpl. repeat split; constructor.
  - cbn [none_is forallb] in N. apply andb_true_iff in N.
    destruct N as [Np N]. apply negb_true_iff in Np.
    cbv zeta. cbn [moveAI].
    assert (V : movePlayer g player
                  (Vector.sub (position b) (position player))
                = Body.setVelocity player (chase b player)).
    { unfold movePlayer, chase. rewrite Np. reflexivity. }
    match goal with
    | |- context [match ?e with pair _ _ => _ end] =>
        assert (K : same_motion (fst e) b
                    /\ Forall (fun p => p = kick_packet b) (emitted (snd e))
                    /\ (List.length (emitted (snd e)) <= 1)%nat);
        [ repeat match goal with
                 | |- context [if ?c then _ else _] => destruct c
                 end;
          try (split; [apply kickBall_same_motion | apply kickBall_emits]);
          (split; [split; reflexivity | split; [constructor | simpl; lia]])
        | destruct e as [b1 es1] ]
    end.
    cbn [fst snd] in K. destruct K as [M [E L]].
    specialize (IH b1 N). cbv zeta in IH.
    destruct (moveAI g rest goal b1) as [[rest' b2] es2].
    cbn [fst snd] in *. destruct IH as [I1 [I3 I4]].
    unfold emitted in *. rewrite flat_map_app, length_app.
    split; [|split].
    + cbn [map]. rewrite V, I1. f_equal.
      apply map_ext. intros q. unfold chase. destruct M as [P _].
      rewrite P. reflexivity.
    + apply Forall_app. split; [exact E|].
      rewrite (kick_packet_same_motion b b1 M) in I3. exact I3.
    + cbn [List.length]. lia.
Qed.

Lemma before_ai_keeps (g : World) :
  let g4 := powerUpTimer (fst (powerUpCollisions collides
                                 (magnetBall (playerMovement g)))) in
  same_motion (ball g4) (ball g)
  /\ team2 g4 = team2 g
  /\ snd (team1 g4) = snd (team1 g)
  /\ id (fst (team1 g4)) = id (fst (team1 g))
  /\ moves (snd (powerUpCollisions collides (magnetBall (playerMovement g)))) = []
  /\ emitted (snd (powerUpCollisions collides (magnetBall (playerMovement g)))) = [].
Proof.
  cbv zeta.
  assert (E : forall l p t player,
             emitted (snd (collectPowerUps collides player l p t)) = []).
  { intros l p t player. rewrite collectPowerUps_closed_form. cbn [snd].
    unfold emitted. induction (touched collides player l); [reflexivity|].
    simpl. assumption. }
  unfold powerUpCollisions.
  specialize (E (activePowerUps (magnetBall (playerMovement g)))
                (playerPowerUp (magnetBall (playerMovement g)))
                (powerUpTimeLeft (magnetBall (playerMovement g)))
                (fst (team1 (magnetBall (playerMovement g))))).
  destruct (collectPowerUps collides
              (fst (team1 (magnetBall (playerMovement g))))
              (activePowerUps (magnetBall (playerMovement g)))
              (playerPowerUp (magnetBall (playerMovement g)))
              (powerUpTimeLeft (magnetBall (playerMovement g))))
    as [[[kept p] t] es].
  cbn [fst snd] in *.
  assert (M : same_motion (ball (magnetBall (playerMovement g))) (ball g)
              /\ team2 (magnetBall (playerMovement g)) = team2 g
              /\ snd (team1 (magnetBall (playerMovement g))) = snd (team1 g)
              /\ id (fst (team1 (magnetBall (playerMovement g))))
                 = id (fst (team1 g))).
  { unfold magnetBall, playerMovement.
    repeat match goal with
           | |- context [if ?c then _ else _] => destruct c
           end; repeat split. }
  destruct M as [M1 [M2 [M3 M4]]].
  unfold powerUpTimer.
  repeat match goal with
         | |- context [if ?c then _ else _] => destruct c
         end;
    cbn [set_powerUps ball team1 team2];
    (split; [exact M1|]); (split; [exact M2|]); (split; [exact M3|]);
    (split; [exact M4|]); unfold moves; rewrite E; split; reflexivity.
Qed.

(** X18: every AI player is sent straight at the ball at the base
    speed.  When no AI player is the player's own body, what a tick does
    to each player of team 2 and to each team-mate of the player is one
    call [Body.setVelocity(player, v)] with [v] the unit vector towards
    the ball (as it was when the tick began) times 5, and nothing else:
    the player's speed boost never applies to them.  (The library stores
    for [v] the position minus (the position minus [v]).)  Whatever the
    tick emits is a ['kick'] packet with the position and velocity the
    ball had when the tick began, at most one for each AI player. *)
Theorem ai_players_chase_the_ball (g : World) :
  none_is (fst (team1 g)) (team2 g) = true ->
  none_is (fst (team1 g)) (snd (team1 g)) = true ->
  let g' := fst (beforeUpdate collides g) in
  let sent := emitted (snd (beforeUpdate collides g)) in
  team2 g' = map (fun p => Body.setVelocity p (chase (ball g) p)) (team2 g)
  /\ snd (team1 g')
     = map (fun p => Body.setVelocity p (chase (ball g) p)) (snd (team1 g))
  /\ Forall (fun p => p = kick_packet (ball g)) sent
  /\ (List.length sent
      <= List.length (team2 g) + List.length (snd (team1 g)))%nat.
Proof.
  intros N2 N1. cbv zeta. unfold beforeUpdate.
  destruct (before_ai_keeps g) as [B [T2 [T1 [I [_ E0]]]]].
  destruct (powerUpCollisions collides (magnetBall (playerMovement g)))
    as [g3 es0].
  cbn [fst snd] in *.
  set (g4 := powerUpTimer g3) in *.
  unfold aiMovement.
  assert (N2' : none_is (fst (team1 g4)) (team2 g4) = true).
  { rewrite T2. unfold none_is, same_body in *. rewrite I. exact N2. }
  assert (A := moveAI_chases g4 (team2 g4) (leftGoal g4) (ball g4) N2').
  assert (SA := moveAI_same_motion g4 (team2 g4) (leftGoal g4) (ball g4)).
  cbv zeta in A.
  destruct (moveAI g4 (team2 g4) (leftGoal g4) (ball g4)) as [[t2 b2] es1].
  cbn [fst snd] in A, SA.
  set (g5 := set_ball (set_team2 g4 t2) b2).
  assert (N1' : none_is (fst (team1 g5)) (snd (team1 g5)) = true).
  { subst g5. cbn [set_ball set_team2 team1]. rewrite T1.
    unfold none_is, same_body in *. rewrite I. exact N1. }
  assert (C := moveAI_chases g5 (snd (team1 g5)) (rightGoal g5) (ball g5) N1').
  cbv zeta in C.
  destruct (moveAI g5 (snd (team1 g5)) (rightGoal g5) (ball g5))
    as [[mates b3] es2].
  cbn [fst snd] in C.
  destruct A as [A1 [A3 A4]], C as [C1 [C3 C4]].
  subst g5. cbn [set_ball set_team2 set_team1 team1 team2 ball fst snd] in *.
  assert (Q4 : forall q, Body.setVelocity q (chase (ball g4) q)
                         = Body.setVelocity q (chase (ball g) q)).
  { intros q. unfold chase. destruct B as [P _]. rewrite P. reflexivity. }
  assert (Q2 : forall q, Body.setVelocity q (chase b2 q)
                         = Body.setVelocity q (chase (ball g) q)).
  { intros q. unfold chase. destruct SA as [P _], B as [P' _].
    rewrite P, P'. reflexivity. }
  assert (K4 : kick_packet (ball g4) = kick_packet (ball g))
    by apply kick_packet_same_motion, B.
  assert (K2 : kick_packet b2 = kick_packet (ball g)).
  { rewrite (kick_packet_same_motion (ball g4) b2 SA). exact K4. }
  rewrite K4 in A3. rewrite K2 in C3. rewrite T2 in *. rewrite T1 in *.
  split; [|split; [|split]].
  - rewrite A1. apply map_ext, Q4.
  - rewrite C1. apply map_ext, Q2.
  - unfold emitted in *. rewrite !flat_map_app.
    apply Forall_app. split; [rewrite E0; constructor|].
    apply Forall_app. split; assumption.
  - unfold emitted in *. rewrite !flat_map_app, !length_app, E0.
    cbn [List.length]. lia.
Qed.

End AILoop.

Lemma ai_players_chase_the_ball_witness :
  PowerUps.team2 (fst (PowerUps.beforeUpdate Samples.no_collision Cases.boosted))
  = map (fun p => Body.setVelocity p (chase (PowerUps.ball Cases.boosted) p))
        (PowerUps.team2 Cases.boosted).
Proof.
  exact (proj1 (ai_players_chase_the_ball Samples.no_collision Cases.boosted
                  eq_refl eq_refl)).
Defined.

(** ** Well-formed worlds *)

Section WellFormed.

Import PowerUps.

Variable collides : Body -> Body -> bool.

Lemma none_is_ids (me me' : Body) (team team' : list Body) :
  id me' = id me -> map id team' = map id team ->
  none_is me' team' = none_is me team.
Proof.
  intros I. revert team'. induction team as [|p rest IH]; intros team' M.
  - destruct team'; [reflexivity | discriminate M].
  - destruct team' as [|p' rest']; [discriminate M|].
    simpl in M. injection M as Ip M.
    unfold none_is in *. cbn [forallb]. rewrite (IH rest' M).
    unfold same_body. rewrite Ip, I. reflexivity.
Qed.

Lemma same_cast_well_formed (g g' : World) :
  same_cast g g' -> well_formed g -> well_formed g'.
Proof.
  unfold same_cast, well_formed.
  intros [C1 [C2 [C3 [C4 [C5 _]]]]] [D [F1 [F2 [N1 N2]]]].
  cbn [map] in C1. injection C1 as Ime C1.
  split; [|split; [|split; [|split]]].
  - unfold distinct_ids, same_body in *. rewrite C3, C4, C5. exact D.
  - rewrite <- F1, <- (length_map id), C1, length_map. reflexivity.
  - rewrite <- F2, <- (length_map id), C2, length_map. reflexivity.
  - rewrite (none_is_ids (fst (team1 g)) (fst (team1 g')) (snd (team1 g))
               (snd (team1 g')) Ime C1). exact N1.
  - rewrite (none_is_ids (fst (team1 g)) (fst (team1 g')) (team2 g)
               (team2 g') Ime C2). exact N2.
Qed.

(** X19: the world stays well formed.  The world the effect builds, for
    any window size, has ball and goals as distinct bodies, teams of
    [TEAM_SIZE] and no AI player that is the player's own body; and
    through any sequence of ticks, engine steps, goals, key events and
    spawns it stays so. *)
Theorem world_stays_well_formed (w h : float) (sc : Score)
    (inputs : list Loop.Input) :
  well_formed (createWorld w h)
  /\ well_formed (world_of (Loop.play collides (createWorld w h, sc) inputs)).
Proof.
  assert (W : well_formed (createWorld w h)).
  { unfold well_formed. repeat split. }
  split; [exact W|].
  apply (same_cast_well_formed (createWorld w h)); [|exact W].
  apply (play_same_cast collides inputs (createWorld w h) sc).
Qed.

End WellFormed.

(** ** What is heard is what happened *)

Section Accounting.

Import PowerUps.

Variable collides : Body -> Body -> bool.

Lemma tally_app (a b : list Effect) :
  tally (a ++ b)
  = (fst (fst (tally a)) + fst (fst (tally b)),
     snd (fst (tally a)) + snd (fst (tally b)),
     snd (tally a) + snd (tally b))%nat.
Proof.
  unfold tally, sounds, flashes. cbn [fst snd].
  rewrite !filter_app, !length_app. reflexivity.
Qed.

Lemma kickBall_tally (g : World) (kicker b : Body) :
  tally (snd (kickBall g kicker b)) = (0, 0, 0)%nat.
Proof.
  unfold kickBall.
  destruct (Vector.magnitude (Vector.sub (position b) (position kicker)) <? 50);
    reflexivity.
Qed.

Lemma moveAI_tally (g : World) (team : list Body) (goal b : Body) :
  tally (snd (moveAI g team goal b)) = (0, 0, 0)%nat.
Proof.
  revert b. induction team as [|player rest IH]; intros b.
  - reflexivity.
  - cbn [moveAI].
    match goal with
    | |- context [match ?e with pair _ _ => _ end] =>
        assert (K : tally (snd e) = (0, 0, 0)%nat);
        [ repeat match goal with
                 | |- context [if ?c then _ else _] => destruct c
                 end;
          try apply kickBall_tally; reflexivity
        | destruct e as [b1 es1] ]
    end.
    cbn [snd] in K. specialize (IH b1).
    destruct (moveAI g rest goal b1) as [[rest' b2] es2].
    cbn [snd] in *. rewrite tally_app, K, IH. reflexivity.
Qed.

Lemma aiMovement_tally (g : World) :
  tally (snd (aiMovement g)) = (0, 0, 0)%nat.
Proof.
  unfold aiMovement.
  assert (A := moveAI_tally g (team2 g) (leftGoal g) (ball g)).
  destruct (moveAI g (team2 g) (leftGoal g) (ball g)) as [[t2 b2] es1].
  cbn [snd] in A.
  set (g5 := set_ball (set_team2 g t2) b2).
  assert (C := moveAI_tally g5 (snd (team1 g5)) (rightGoal g5) (ball g5)).
  destruct (moveAI g5 (snd (team1 g5)) (rightGoal g5) (ball g5))
    as [[mates b3] es2].
  cbn [snd] in *. rewrite tally_app, A, C. reflexivity.
Qed.

Lemma pickup_tally (g : World) :
  tally (snd (powerUpCollisions collides g))
  = (List.length (touched collides (fst (team1 g)) (activePowerUps g)), 0, 0)%nat
  /\ (List.length (activePowerUps (fst (powerUpCollisions collides g)))
      + List.length (touched collides (fst (team1 g)) (activePowerUps g))
      = List.length (activePowerUps g))%nat.
Proof.
  unfold powerUpCollisions. rewrite collectPowerUps_closed_form.
  cbn [fst snd set_powerUps activePowerUps]. split.
  - unfold tally, sounds, flashes.
    induction (touched collides (fst (team1 g)) (activePowerUps g))
      as [|pu hit IH]; [reflexivity|].
    cbn [map filter is_sound is_flash List.length].
    injection IH as I1 I2 I3. rewrite I1, I2, I3. reflexivity.
  - unfold untouched, touched.
    induction (activePowerUps g) as [|pu rest IH]; [reflexivity|].
    cbn [filter]. destruct (collides (fst (team1 g)) (body pu));
      cbn [negb List.length]; lia.
Qed.

Lemma beforeUpdate_tally (g : World) :
  let r := beforeUpdate collides g in
  exists k,
    tally (snd r) = (k, 0, 0)%nat
    /\ (List.length (activePowerUps (fst r)) + k
        = List.length (activePowerUps g))%nat.
Proof.
  cbv zeta.
  destruct (beforeUpdate_powerUps collides g) as [A _].
  destruct (playerMovement_same_powerUps g) as [A1 _].
  destruct (magnetBall_same_powerUps (playerMovement g)) as [A2 _].
  destruct (pickup_tally (magnetBall (playerMovement g))) as [T L].
  exists (List.length (touched collides
                         (fst (team1 (magnetBall (playerMovement g))))
                         (activePowerUps (magnetBall (playerMovement g))))).
  split.
  - unfold beforeUpdate.
    destruct (powerUpCollisions collides (magnetBall (playerMovement g)))
      as [g3 es0].
    cbn [fst snd] in *.
    assert (K := aiMovement_tally (powerUpTimer g3)).
    destruct (aiMovement (powerUpTimer g3)) as [g5 es1].
    cbn [snd] in *. rewrite tally_app, T, K. cbn [fst snd].
    rewrite !Nat.add_0_r. reflexivity.
  - rewrite A.
    assert (P : activePowerUps
                  (powerUpTimer
                     (fst (powerUpCollisions collides
                             (magnetBall (playerMovement g)))))
                = activePowerUps
                    (fst (powerUpCollisions collides
                            (magnetBall (playerMovement g))))).
    { unfold powerUpTimer.
      repeat match goal with
             | |- context [if ?c then _ else _] => destruct c
             end; reflexivity. }
    rewrite P, L, A2, A1. reflexivity.
Qed.

Lemma on_pair_tally (st : World * Score * list Effect) (pair : Pair) :
  let st' := on_pair st pair in
  exists k,
    tally (snd st')
    = (fst (fst (tally (snd st))), snd (fst (tally (snd st))) + k,
       snd (tally (snd st)) + k)%nat
    /\ goals_scored (snd (fst st')) = (goals_scored (snd (fst st)) + Z.of_nat k)%Z
    /\ activePowerUps (fst (fst st')) = activePowerUps (fst (fst st)).
Proof.
  destruct st as [[g sc] es]. cbv zeta. unfold on_pair.
  assert (Z : exists k,
             tally es = (fst (fst (tally es)), snd (fst (tally es)) + k,
                         snd (tally es) + k)%nat
             /\ goals_scored sc = (goals_scored sc + Z.of_nat k)%Z
             /\ activePowerUps g = activePowerUps g).
  { exists 0%nat. rewrite !Nat.add_0_r.
    split; [destruct (tally es) as [[a b] c]; reflexivity|].
    split; [simpl; lia | reflexivity]. }
  destruct (same_body (bodyA pair) (ball g) || same_body (bodyB pair) (ball g));
    [|exact Z].
  cbv zeta.
  destruct (same_body
              (if same_body (bodyA pair) (ball g) then bodyB pair else bodyA pair)
              (leftGoal g) ||
            same_body
              (if same_body (bodyA pair) (ball g) then bodyB pair else bodyA pair)
              (rightGoal g)); [|exact Z].
  exists 1%nat. cbn [fst snd]. rewrite tally_app. cbn [fst snd].
  split; [|split].
  - unfold tally, sounds, flashes. cbn [filter is_sound is_flash List.length fst snd].
    rewrite Nat.add_0_r. reflexivity.
  - unfold goals_scored.
    destruct (same_body
                (if same_body (bodyA pair) (ball g) then bodyB pair else bodyA pair)
                (leftGoal g)); cbn [player1 player2]; lia.
  - reflexivity.
Qed.

Lemma collisionStart_tally (pairs : list Pair) (g : World) (sc : Score) :
  let r := collisionStart pairs g sc in
  exists k,
    tally (snd r) = (0, k, k)%nat
    /\ goals_scored (score_of r) = (goals_scored sc + Z.of_nat k)%Z
    /\ activePowerUps (world_of r) = activePowerUps g.
Proof.
  cbv zeta. unfold collisionStart, score_of, world_of.
  assert (G : forall st,
             exists k,
               tally (snd (fold_left on_pair pairs st))
               = (fst (fst (tally (snd st))), snd (fst (tally (snd st))) + k,
                  snd (tally (snd st)) + k)%nat
               /\ goals_scored (snd (fst (fold_left on_pair pairs st)))
                  = (goals_scored (snd (fst st)) + Z.of_nat k)%Z
               /\ activePowerUps (fst (fst (fold_left on_pair pairs st)))
                  = activePowerUps (fst (fst st))).
  { induction pairs as [|pair rest IH]; intros st.
    - exists 0%nat. cbn [fold_left]. rewrite !Nat.add_0_r.
      split; [destruct (tally (snd st)) as [[a b] c]; reflexivity|].
      split; [simpl; lia | reflexivity].
    - cbn [fold_left].
      destruct (on_pair_tally st pair) as [k1 [T1 [S1 P1]]].
      destruct (IH (on_pair st pair)) as [k2 [T2 [S2 P2]]].
      exists (k1 + k2)%nat. rewrite T2, S2, P2, T1, S1, P1. cbn [fst snd].
      split; [|split; [lia | reflexivity]].
      rewrite !Nat.add_assoc. reflexivity. }
  destruct (G (g, sc, [])) as [k [T [S P]]].
  exists k. cbn [fst snd] in *. split; [exact T|]. split; assumption.
Qed.

Lemma dispatch_tally (st : World * Score) (i : Loop.Input) :
  let r := Loop.dispatch collides st i in
  exists picked goals,
    tally (snd r) = (picked, goals, goals)
    /\ (List.length (activePowerUps (world_of r)) + picked
        = List.length (activePowerUps (fst st))
          + (if is_spawn i then 1 else 0))%nat
    /\ goals_scored (score_of r) = (goals_scored (snd st) + Z.of_nat goals)%Z.
Proof.
  destruct st as [g sc]. cbv zeta. unfold world_of, score_of, Loop.dispatch.
  destruct i as [ | motion | pairs | key code | key | i r1 r2 r3 ];
    cbn [is_spawn fst snd].
  - destruct (beforeUpdate_tally g) as [k [T L]]. cbv zeta in T, L.
    destruct (beforeUpdate collides g) as [g' es]. cbn [fst snd] in *.
    exists k, 0%nat. split; [exact T|]. split; [lia | simpl; lia].
  - exists 0%nat, 0%nat. split; [reflexivity|].
    split; [reflexivity | simpl; lia].
  - destruct (collisionStart_tally pairs g sc) as [k [T [S P]]].
    unfold world_of, score_of in *.
    exists 0%nat, k. split; [exact T|]. split; [rewrite P; lia | exact S].
  - unfold handleKeyDown, handleSpacebar.
    destruct (String.eqb code "Space").
    + assert (K := kickBall_tally (set_keys g (set_key key true (keys g)))
                     (fst (team1 (set_keys g (set_key key true (keys g)))))
                     (ball (set_keys g (set_key key true (keys g))))).
      destruct (kickBall (set_keys g (set_key key true (keys g)))
                  (fst (team1 (set_keys g (set_key key true (keys g)))))
                  (ball (set_keys g (set_key key true (keys g))))) as [b es].
      cbn [fst snd app] in *.
      exists 0%nat, 0%nat. split; [exact K|].
      split; [reflexivity | simpl; lia].
    + exists 0%nat, 0%nat. split; [reflexivity|].
      split; [reflexivity | simpl; lia].
  - exists 0%nat, 0%nat. split; [reflexivity|].
    split; [reflexivity | simpl; lia].
  - exists 0%nat, 0%nat. split; [reflexivity|].
    split; [|simpl; lia].
    unfold Loop.spawnPowerUp. cbn [set_powerUps activePowerUps].
    rewrite length_app. cbn [List.length]. lia.
Qed.

(** X20: what is heard is what happened.  Over any sequence of ticks,
    engine steps, collision events, key events and power-up spawns: the
    power-ups on the field plus the pickup sounds played equal the
    power-ups there at the start plus the spawns (a power-up leaves the
    field only by being picked up, none expires); the goals of both sides
    together have grown by exactly the number of goal sounds played; and
    there are as many goal flashes as goal sounds. *)
Theorem effects_account_for_goals_and_pickups (inputs : list Loop.Input)
    (g : World) (sc : Score) :
  let r := Loop.play collides (g, sc) inputs in
  (List.length (activePowerUps (world_of r)) + sounds powerUpSound (snd r)
   = List.length (activePowerUps g) + spawns_in inputs)%nat
  /\ goals_scored (score_of r)
     = (goals_scored sc + Z.of_nat (sounds goalSound (snd r)))%Z
  /\ flashes (snd r) = sounds goalSound (snd r).
Proof.
  cbv zeta. revert g sc. induction inputs as [|i rest IH]; intros g sc.
  - cbn [Loop.play]. unfold world_of, score_of, spawns_in, sounds, flashes.
    cbn [fst snd filter List.length].
    split; [reflexivity|]. split; [|reflexivity].
    change (Z.of_nat 0) with 0%Z. rewrite Z.add_0_r. reflexivity.
  - destruct (dispatch_tally (g, sc) i) as [picked [goals [T [L S]]]].
    cbv zeta in T, L, S. unfold world_of, score_of in *.
    cbn [Loop.play].
    destruct (Loop.dispatch collides (g, sc) i) as [[g1 sc1] es1].
    cbn [fst snd] in *.
    specialize (IH g1 sc1).
    destruct (Loop.play collides (g1, sc1) rest) as [[g2 sc2] es2].
    cbn [fst snd] in *. destruct IH as [I1 [I2 I3]].
    assert (TA := tally_app es1 es2). rewrite T in TA.
    unfold tally in TA. cbn [fst snd] in TA. injection TA as Q1 Q2 Q3.
    rewrite Q1, Q2, Q3.
    unfold spawns_in in *. cbn [filter].
    split; [|split].
    + destruct (is_spawn i); cbn [List.length]; lia.
    + lia.
    + lia.
Qed.

End Accounting.
